(** * qutebrowser/mainwindow/prompt.py: the prompt container and its prompts

    A shallow embedding of [PromptContainer] (the question arbiter) and of
    the prompt classes it shows, followed by the properties of the
    natural-language specification that were checked against it.

    Python objects live in a store and are named by references, because a
    question is shared between its producer, the queue and the prompt that
    wraps it.  Methods are computations in a state-and-exception monad over
    that store.  Calls that leave the module (the mode manager, Qt widgets,
    event loops) are recorded in a trace, in the order in which they are
    made.  What comes back from outside (a key mode was left, a timer
    fired, Qt destroyed an event loop) is an event of its own, and the
    nested event loop of a blocking ask is a parameter of the model. *)

From Stdlib Require Import Ascii String.
From stdpp Require Import base strings list gmap.

Local Open Scope string_scope.
Local Open Scope list_scope.

(** ** Enumerations of [usertypes] *)

(** Modelled from the spec: [usertypes.PromptMode], which the source only
    uses.  The source names the members [yesno], [text], [user_pwd],
    [download] and [alert]; the specification's enumeration
    {YesNo, Text, Credentials, Filename, DownloadFilename, Alert} has a
    sixth one, [filename]. *)
Module PromptMode.
Inductive t := yesno | text | user_pwd | filename | download | alert.
#[global] Instance PromptMode_eq_dec : EqDecision t := ltac:(solve_decision).
Definition all : list t := [yesno; text; user_pwd; filename; download; alert].
End PromptMode.

(** Modelled from the spec: [usertypes.KeyMode], which the source only
    uses.  The source names [prompt] and [yesno]; [normal] stands for every
    other key mode. *)
Module KeyMode.
Inductive t := normal | prompt | yesno.
#[global] Instance KeyMode_eq_dec : EqDecision t := ltac:(solve_decision).
End KeyMode.

(** ** Python values stored in [question.default] and [question.answer] *)

Inductive Value :=
| VBool (b : bool)
| VStr (s : string)
| AuthTuple (user password : string)
| FileDownloadTarget (filename : string)
| OpenFileDownloadTarget (cmdline : option string).

#[global] Instance Value_eq_dec : EqDecision Value := ltac:(solve_decision).

(** Python truthiness of an attribute that may be [None]. *)
Definition truthy (v : option Value) : bool :=
  match v with
  | None => false
  | Some (VBool b) => b
  | Some (VStr s) => negb (String.eqb s "")
  | Some _ => true
  end.

(** ** References into the object store *)

Abbreviation QuestionRef := nat (only parsing).
Abbreviation PromptRef := nat (only parsing).
Abbreviation LoopRef := nat (only parsing).

(** ** Exceptions *)

Inductive Exn :=
| Error (msg : string)              (* prompt.Error *)
| UnsupportedOperationError         (* prompt.UnsupportedOperationError *)
| CommandError (msg : string)       (* cmdexc.CommandError *)
| AssertionError
| KeyError
| AttributeError
| TypeError
| ValueError
| InvalidStateError                 (* raised by a question completed twice *)
| InvalidRef.                       (* a reference outside the store; no
                                       Python program reaches it *)

#[global] Instance Exn_eq_dec : EqDecision Exn := ltac:(solve_decision).

(** The specification's error kinds are instances of the module's one
    [Error] class; the message tells them apart. *)
Definition NoDefaultError : Exn :=
  Error "No default value was set for this question!".
Definition InvalidValueError (msg : string) : Exn := Error msg.

(** ** Signals and slots *)

(** The slots this module connects to a question's signals. *)
Inductive Slot :=
| Slot_maybe_leave (km : KeyMode.t)   (* lambda: modeman.maybe_leave(..., 'aborted') *)
| Slot_loop_quit (loop : LoopRef)     (* loop.quit *)
| Slot_loop_deleteLater (loop : LoopRef)
| Slot_pop_later.                     (* self._pop_later *)

#[global] Instance Slot_eq_dec : EqDecision Slot := ltac:(solve_decision).

(** ** Questions *)

Module Question.
(** The attributes of [usertypes.Question] the source reads and writes,
    the connections made to its [aborted] and [completed] signals, and
    whether its C++ half was deleted ([sip.isdeleted]).  [completed]
    records that the completion notification has fired. *)
Record t := mk {
  mode : PromptMode.t;
  title : option string;
  text : option string;
  default : option Value;
  answer : option Value;
  is_aborted : bool;
  completed : bool;
  deleted : bool;
  aborted_slots : list Slot;
  completed_slots : list Slot;
}.

Definition set_answer_attr (v : option Value) (q : t) : t :=
  mk (mode q) (title q) (text q) (default q) v (is_aborted q)
     (completed q) (deleted q) (aborted_slots q) (completed_slots q).
Definition set_completed (q : t) : t :=
  mk (mode q) (title q) (text q) (default q) (answer q) (is_aborted q)
     true (deleted q) (aborted_slots q) (completed_slots q).
Definition set_aborted (q : t) : t :=
  mk (mode q) (title q) (text q) (default q) (answer q) true
     true (deleted q) (aborted_slots q) (completed_slots q).
Definition connect_aborted (s : Slot) (q : t) : t :=
  mk (mode q) (title q) (text q) (default q) (answer q) (is_aborted q)
     (completed q) (deleted q) (aborted_slots q ++ [s]) (completed_slots q).
Definition connect_completed (s : Slot) (q : t) : t :=
  mk (mode q) (title q) (text q) (default q) (answer q) (is_aborted q)
     (completed q) (deleted q) (aborted_slots q) (completed_slots q ++ [s]).

Definition set_deleted (q : t) : t :=
  mk (mode q) (title q) (text q) (default q) (answer q) (is_aborted q)
     (completed q) true (aborted_slots q) (completed_slots q).

(** A question as its producer hands it over. *)
Definition new (m : PromptMode.t) (ttl : option string)
    (dflt : option Value) : t :=
  mk m ttl None dflt None false false false [] [].

#[global] Instance Question_eq_dec : EqDecision t := ltac:(solve_decision).
End Question.

(** ** Prompts *)

Inductive Klass :=
| LineEditPrompt
| FilenamePrompt
| DownloadFilenamePrompt
| AuthenticationPrompt
| YesNoPrompt
| AlertPrompt.

#[global] Instance Klass_eq_dec : EqDecision Klass := ltac:(solve_decision).

(** Which child of a prompt holds the input focus, as far as the calls the
    source makes ([setFocus], with the focus proxy of the class) decide. *)
Inductive Focus :=
| NoFocus
| FocusSelf
| Focus_lineedit
| Focus_user_lineedit
| Focus_password_lineedit.

#[global] Instance Focus_eq_dec : EqDecision Focus := ltac:(solve_decision).

Module Prompt.
Record t := mk {
  klass : Klass;
  question : QuestionRef;
  _lineedit : string;            (* text of the line edit *)
  _user_lineedit : string;
  _password_lineedit : string;
  focus : Focus;
  _file_current : option nat;    (* current row of the file view *)
}.

Definition set_lineedit (s : string) (p : t) : t :=
  mk (klass p) (question p) s (_user_lineedit p) (_password_lineedit p)
     (focus p) (_file_current p).
Definition set_focus (f : Focus) (p : t) : t :=
  mk (klass p) (question p) (_lineedit p) (_user_lineedit p)
     (_password_lineedit p) f (_file_current p).
Definition set_file_current (i : option nat) (p : t) : t :=
  mk (klass p) (question p) (_lineedit p) (_user_lineedit p)
     (_password_lineedit p) (focus p) i.

#[global] Instance Prompt_eq_dec : EqDecision t := ltac:(solve_decision).
End Prompt.

(** [KEY_MODE] of a prompt class: [yesno] for [YesNoPrompt], the base
    class's [prompt] for the others. *)
Definition KEY_MODE (k : Klass) : KeyMode.t :=
  match k with
  | YesNoPrompt => KeyMode.yesno
  | _ => KeyMode.prompt
  end.

(** The focus proxy set in each constructor. *)
Definition focus_proxy (k : Klass) : Focus :=
  match k with
  | LineEditPrompt | FilenamePrompt | DownloadFilenamePrompt => Focus_lineedit
  | AuthenticationPrompt => Focus_user_lineedit
  | YesNoPrompt | AlertPrompt => FocusSelf
  end.

(** ** Calls that leave the module *)

Inductive Effect :=
| Modeman_enter (km : KeyMode.t) (reason : string)
| Modeman_maybe_leave (km : KeyMode.t) (reason : string)
| Widget_hide (p : PromptRef)
| Widget_show (p : PromptRef) (question : QuestionRef)
| Container_hide
| Container_show
| Emit_update_geometry
| Loop_quit (loop : LoopRef)
| Loop_deleteLater (loop : LoopRef)
| Call_done (q : QuestionRef)
| Call_cancel (q : QuestionRef)
| Call_abort (q : QuestionRef).

#[global] Instance Effect_eq_dec : EqDecision Effect := ltac:(solve_decision).

(** ** Layout items *)

Inductive LayoutItem :=
| QWidgetItem (widget : PromptRef)
| QLayoutItem_other.

#[global] Instance LayoutItem_eq_dec : EqDecision LayoutItem := ltac:(solve_decision).

(** ** The world: the container's attributes, the store, the environment *)

Record World := mkWorld {
  (* attributes of PromptContainer *)
  _prompt : option PromptRef;
  _shutting_down : bool;
  _loops : list LoopRef;
  _queue : list QuestionRef;
  _layout : list LayoutItem;
  (* object store *)
  questions : list Question.t;
  prompts : list Prompt.t;
  next_loop : LoopRef;
  (* Qt *)
  pending_pops : nat;            (* QTimer.singleShot(0, self._pop) not yet fired *)
  file_rows : list string;       (* rows the file model lists *)
  trace : list Effect;
}.

#[global] Instance World_eq_dec : EqDecision World := ltac:(solve_decision).

Definition set_prompt (p : option PromptRef) (w : World) : World :=
  mkWorld p (_shutting_down w) (_loops w) (_queue w) (_layout w)
    (questions w) (prompts w) (next_loop w) (pending_pops w) (file_rows w)
    (trace w).
Definition set_shutting_down (b : bool) (w : World) : World :=
  mkWorld (_prompt w) b (_loops w) (_queue w) (_layout w)
    (questions w) (prompts w) (next_loop w) (pending_pops w) (file_rows w)
    (trace w).
Definition set_loops (l : list LoopRef) (w : World) : World :=
  mkWorld (_prompt w) (_shutting_down w) l (_queue w) (_layout w)
    (questions w) (prompts w) (next_loop w) (pending_pops w) (file_rows w)
    (trace w).
Definition set_queue (l : list QuestionRef) (w : World) : World :=
  mkWorld (_prompt w) (_shutting_down w) (_loops w) l (_layout w)
    (questions w) (prompts w) (next_loop w) (pending_pops w) (file_rows w)
    (trace w).
Definition set_layout (l : list LayoutItem) (w : World) : World :=
  mkWorld (_prompt w) (_shutting_down w) (_loops w) (_queue w) l
    (questions w) (prompts w) (next_loop w) (pending_pops w) (file_rows w)
    (trace w).
Definition set_questions (l : list Question.t) (w : World) : World :=
  mkWorld (_prompt w) (_shutting_down w) (_loops w) (_queue w) (_layout w)
    l (prompts w) (next_loop w) (pending_pops w) (file_rows w) (trace w).
Definition set_prompts (l : list Prompt.t) (w : World) : World :=
  mkWorld (_prompt w) (_shutting_down w) (_loops w) (_queue w) (_layout w)
    (questions w) l (next_loop w) (pending_pops w) (file_rows w) (trace w).
Definition set_next_loop (n : LoopRef) (w : World) : World :=
  mkWorld (_prompt w) (_shutting_down w) (_loops w) (_queue w) (_layout w)
    (questions w) (prompts w) n (pending_pops w) (file_rows w) (trace w).
Definition set_pending_pops (n : nat) (w : World) : World :=
  mkWorld (_prompt w) (_shutting_down w) (_loops w) (_queue w) (_layout w)
    (questions w) (prompts w) (next_loop w) n (file_rows w) (trace w).
Definition set_trace (t : list Effect) (w : World) : World :=
  mkWorld (_prompt w) (_shutting_down w) (_loops w) (_queue w) (_layout w)
    (questions w) (prompts w) (next_loop w) (pending_pops w) (file_rows w) t.

Arguments set_prompt _ _ /.
Arguments set_shutting_down _ _ /.
Arguments set_loops _ _ /.
Arguments set_queue _ _ /.
Arguments set_layout _ _ /.
Arguments set_questions _ _ /.
Arguments set_prompts _ _ /.
Arguments set_next_loop _ _ /.
Arguments set_pending_pops _ _ /.
Arguments set_trace _ _ /.

(** [PromptContainer.__init__], with the questions the producers hold. *)
Definition init (qs : list Question.t) (rows : list string) : World :=
  mkWorld None false [] [] [] qs [] 0 0 rows [].

(** ** The monad of methods: state and exceptions *)

Inductive Res (A : Type) :=
| Ok (a : A)
| Raise (e : Exn).
Arguments Ok {A} a.
Arguments Raise {A} e.

#[global] Instance Res_ret : MRet Res := fun A a => Ok a.
#[global] Instance Res_bind : MBind Res := fun A B f r =>
  match r with
  | Ok a => f a
  | Raise e => Raise e
  end.

Definition M (A : Type) : Type := World -> Res A * World.

#[global] Instance M_ret : MRet M := fun A a w => (Ok a, w).
#[global] Instance M_bind : MBind M := fun A B f m w =>
  match m w with
  | (Ok a, w') => f a w'
  | (Raise e, w') => (Raise e, w')
  end.

Definition get : M World := fun w => (Ok w, w).
Definition modify (f : World -> World) : M unit := fun w => (Ok tt, f w).
Definition raise {A} (e : Exn) : M A := fun w => (Raise e, w).
Definition lift {A} (r : Res A) : M A := fun w => (r, w).
Definition log (e : Effect) : M unit :=
  modify (fun w => set_trace (trace w ++ [e]) w).

(** [try: c except Error as e: h(str(e))] *)
Definition try_except_Error {A} (c : M A) (h : string -> M A) : M A :=
  fun w => match c w with
           | (Raise (Error msg), w') => h msg w'
           | r => r
           end.

(** [try: c except UnsupportedOperationError: pass] *)
Definition try_except_Unsupported (c : M unit) : M unit :=
  fun w => match c w with
           | (Raise UnsupportedOperationError, w') => (Ok tt, w')
           | r => r
           end.

Definition get_question (q : QuestionRef) : M Question.t :=
  w ← get;
  match questions w !! q with
  | Some qq => mret qq
  | None => raise InvalidRef
  end.

Definition update_question (q : QuestionRef) (f : Question.t -> Question.t)
    : M unit :=
  qq ← get_question q;
  modify (fun w => set_questions (<[q := f qq]> (questions w)) w).

Definition get_prompt (p : PromptRef) : M Prompt.t :=
  w ← get;
  match prompts w !! p with
  | Some pr => mret pr
  | None => raise InvalidRef
  end.

Definition update_prompt (p : PromptRef) (f : Prompt.t -> Prompt.t)
    : M unit :=
  pr ← get_prompt p;
  modify (fun w => set_prompts (<[p := f pr]> (prompts w)) w).


Fixpoint for_each {A} (f : A -> M unit) (l : list A) : M unit :=
  match l with
  | [] => mret tt
  | x :: l' => f x;; for_each f l'
  end.

(** ** Python string operations used by the prompts *)

(** [c in s] for a one-character [c]. *)
Fixpoint contains_char (c : ascii) (s : string) : bool :=
  match s with
  | EmptyString => false
  | String a rest => if Ascii.eqb a c then true else contains_char c rest
  end.

(** [s.split(sep, maxsplit=1)] for a one-character [sep]: the text before
    the first [sep] and the text after it, or [s] alone without a [sep]. *)
Fixpoint split_maxsplit1 (sep : ascii) (s : string) : list string :=
  match s with
  | EmptyString => [EmptyString]
  | String a rest =>
      if Ascii.eqb a sep then [EmptyString; rest]
      else match split_maxsplit1 sep rest with
           | hd :: tl => String a hd :: tl
           | [] => [String a EmptyString]
           end
  end.

(** ** PromptContainer._pop_later *)

Definition _pop_later : M unit :=
  modify (fun w => set_pending_pops (S (pending_pops w)) w).

(** ** Questions: completion, cancellation, abortion *)

Definition run_slot (s : Slot) : M unit :=
  match s with
  | Slot_maybe_leave km => log (Modeman_maybe_leave km "aborted")
  | Slot_loop_quit loop => log (Loop_quit loop)
  | Slot_loop_deleteLater loop => log (Loop_deleteLater loop)
  | Slot_pop_later => _pop_later
  end.

(** Emitting a signal calls its slots in the order of connection. *)
Definition emit (slots : list Slot) : M unit := for_each run_slot slots.

(** Modelled from the spec: [Question.done], the completion half of the
    specification's [set_answer] (the prompt stores the answer, then calls
    [done]): it fails with [InvalidStateError] on a question that has
    completed, and fires the completion notification otherwise. *)
Definition Question_done (q : QuestionRef) : M unit :=
  log (Call_done q);;
  qq ← get_question q;
  if Question.completed qq then raise InvalidStateError
  else
    update_question q Question.set_completed;;
    emit (Question.completed_slots qq).

(** Modelled from the spec: [Question.cancel] marks the question aborted
    and fires the completion notification; it does nothing on a question
    that has completed. *)
Definition Question_cancel (q : QuestionRef) : M unit :=
  log (Call_cancel q);;
  qq ← get_question q;
  if Question.completed qq then mret tt
  else
    update_question q Question.set_aborted;;
    emit (Question.completed_slots qq).

(** Modelled from the spec: [Question.abort] is [cancel] with the distinct
    [aborted] notification fired before the completion notification. *)
Definition Question_abort (q : QuestionRef) : M unit :=
  log (Call_abort q);;
  qq ← get_question q;
  if Question.completed qq then mret tt
  else
    update_question q Question.set_aborted;;
    emit (Question.aborted_slots qq);;
    emit (Question.completed_slots qq).

(** ** Prompt classes: constructors *)

(** The constructors read the question and touch nothing else of the
    container, so they are functions of the question. *)

(** [_BasePrompt._init_title] *)
Definition _init_title (qq : Question.t) : Res unit :=
  match Question.title qq with
  | None => Raise AssertionError
  | Some _ => Ok tt
  end.

(** [_allowed_commands] of each class. *)
Definition _allowed_commands (k : Klass) (qq : Question.t)
    : Res (list (string * string)) :=
  match k with
  | LineEditPrompt | FilenamePrompt | AuthenticationPrompt =>
      Ok [("prompt-accept", "Accept"); ("leave-mode", "Abort")]
  | DownloadFilenamePrompt =>
      Ok [("prompt-accept", "Accept"); ("leave-mode", "Abort");
          ("prompt-open-download", "Open download")]
  | YesNoPrompt =>
      let cmds := [("prompt-accept yes", "Yes"); ("prompt-accept no", "No")] in
      match Question.default qq with
      | None => Ok (cmds ++ [("leave-mode", "Abort")])%list
      | Some (VBool b) =>
          let default := if b then "yes" else "no" in
          Ok (cmds ++ [("prompt-accept", "Use default (" +:+ default +:+ ")");
                       ("leave-mode", "Abort")])%list
      | Some _ => Raise AssertionError
      end
  | AlertPrompt => Ok [("prompt-accept", "Hide")]
  end.

(** [_BasePrompt._init_key_label]: the labels come from the key
    configuration, outside the module; what remains is the call of
    [_allowed_commands]. *)
Definition _init_key_label (k : Klass) (qq : Question.t) : Res unit :=
  _allowed_commands k qq;; Ok tt.

(** [if question.default: self._lineedit.setText(question.default)] *)
Definition lineedit_default (qq : Question.t) : Res string :=
  if truthy (Question.default qq) then
    match Question.default qq with
    | Some (VStr s) => Ok s
    | _ => Raise TypeError
    end
  else Ok "".

(** [FilenamePrompt._set_fileview_root(question.default)] in the
    constructor: [path.endswith] needs a string; the root of the file view
    is outside the module. *)
Definition _set_fileview_root_default (qq : Question.t) : Res unit :=
  match Question.default qq with
  | Some (VStr _) => Ok tt
  | _ => Raise AttributeError
  end.

Definition blank (k : Klass) (question : QuestionRef) (line : string)
    : Prompt.t :=
  Prompt.mk k question line "" "" NoFocus None.

(** [klass(question, self._win_id)]: the object built by the constructor
    of [k] for the question object [qq] at [question], or the exception the
    constructor raises. *)
Definition construct (k : Klass) (question : QuestionRef) (qq : Question.t)
    : Res Prompt.t :=
  match k with
  | LineEditPrompt =>
      _init_title qq;;
      line ← lineedit_default qq;
      _init_key_label k qq;;
      Ok (blank k question line)
  | FilenamePrompt | DownloadFilenamePrompt =>
      _init_title qq;;
      _set_fileview_root_default qq;;
      line ← lineedit_default qq;
      _init_key_label k qq;;
      Ok (blank k question line)
  | AuthenticationPrompt =>
      _init_title qq;;
      _init_key_label k qq;;
      (if truthy (Question.default qq) then Raise AssertionError
       else Ok (blank k question ""))
  | YesNoPrompt | AlertPrompt =>
      _init_title qq;;
      _init_key_label k qq;;
      Ok (blank k question "")
  end.

(** The constructor call, with the new object placed in the store. *)
Definition new_prompt (k : Klass) (question : QuestionRef) : M PromptRef :=
  qq ← get_question question;
  pr ← lift (construct k question qq);
  w ← get;
  modify (set_prompts (prompts w ++ [pr]));;
  mret (length (prompts w)).

(** ** Prompt classes: accept *)

(** [self.question.answer = v] *)
Definition set_answer (self : PromptRef) (v : Value) : M unit :=
  pr ← get_prompt self;
  update_question (Prompt.question pr) (Question.set_answer_attr (Some v)).

(** [LineEditPrompt.accept] and [FilenamePrompt.accept] *)
Definition LineEditPrompt_accept (self : PromptRef) (value : option string)
    : M bool :=
  pr ← get_prompt self;
  let text := match value with
              | Some v => v
              | None => Prompt._lineedit pr
              end in
  set_answer self (VStr text);;
  mret true.

(** [DownloadFilenamePrompt.accept] *)
Definition DownloadFilenamePrompt_accept (self : PromptRef)
    (value : option string) : M bool :=
  pr ← get_prompt self;
  let text := match value with
              | Some v => v
              | None => Prompt._lineedit pr
              end in
  set_answer self (FileDownloadTarget text);;
  mret true.

Definition auth_format_msg (value : string) : string :=
  "Value needs to be in the format username:password, but " +:+ value
  +:+ " was given".

(** [AuthenticationPrompt.accept] *)
Definition AuthenticationPrompt_accept (self : PromptRef)
    (value : option string) : M bool :=
  pr ← get_prompt self;
  match value with
  | Some value =>
      if negb (contains_char ":"%char value) then raise (Error (auth_format_msg value))
      else
        match split_maxsplit1 ":"%char value with
        | [username; password] =>
            set_answer self (AuthTuple username password);;
            mret true
        | _ => raise ValueError
        end
  | None =>
      if decide (Prompt.focus pr = Focus_user_lineedit) then
        update_prompt self (Prompt.set_focus Focus_password_lineedit);;
        mret false
      else
        set_answer self (AuthTuple (Prompt._user_lineedit pr)
                                   (Prompt._password_lineedit pr));;
        mret true
  end.

Definition yesno_invalid_msg (value : string) : string :=
  "Invalid value " +:+ value +:+ " - expected yes/no!".

(** [YesNoPrompt.accept] *)
Definition YesNoPrompt_accept (self : PromptRef) (value : option string)
    : M bool :=
  pr ← get_prompt self;
  match value with
  | None =>
      qq ← get_question (Prompt.question pr);
      match Question.default qq with
      | None => raise (Error "No default value was set for this question!")
      | Some d => set_answer self d
      end
  | Some value =>
      if String.eqb value "yes" then set_answer self (VBool true)
      else if String.eqb value "no" then set_answer self (VBool false)
      else raise (Error (yesno_invalid_msg value))
  end;;
  mret true.

(** [AlertPrompt.accept] *)
Definition AlertPrompt_accept (self : PromptRef) (value : option string)
    : M bool :=
  match value with
  | Some _ => raise (Error "No value is permitted with alert prompts!")
  | None => mret true
  end.

(** [prompt.accept(value)], dispatched on the class of the object. *)
Definition accept (self : PromptRef) (value : option string) : M bool :=
  pr ← get_prompt self;
  match Prompt.klass pr with
  | LineEditPrompt | FilenamePrompt => LineEditPrompt_accept self value
  | DownloadFilenamePrompt => DownloadFilenamePrompt_accept self value
  | AuthenticationPrompt => AuthenticationPrompt_accept self value
  | YesNoPrompt => YesNoPrompt_accept self value
  | AlertPrompt => AlertPrompt_accept self value
  end.

(** ** Prompt classes: item_focus and download_open *)

(** [which in ['prev', 'next']] *)
Definition which_ok (which : string) : bool :=
  String.eqb which "prev" || String.eqb which "next".

(** [FilenamePrompt._insert_path]; the file model is a flat list of rows,
    so the path of a valid index is the text of its row. *)
Definition _insert_path (self : PromptRef) (index : option nat)
    (clicked : bool) : M unit :=
  w ← get;
  match index ≫= (fun i => file_rows w !! i) with
  | None => raise TypeError          (* os.path.join() without a part *)
  | Some name =>
      let path := if clicked then name +:+ "/" else name in
      update_prompt self
        (fun p => Prompt.set_focus Focus_lineedit (Prompt.set_lineedit path p));;
      if clicked then update_prompt self (Prompt.set_file_current None)
      else mret tt
  end.

(** [FilenamePrompt.item_focus] *)
Definition FilenamePrompt_item_focus (self : PromptRef) (which : string)
    : M unit :=
  if negb (which_ok which) then raise AssertionError
  else
    pr ← get_prompt self;
    w ← get;
    let count := length (file_rows w) in
    let first_index := if decide (0 < count) then Some 0 else None in
    let last_index := if decide (0 < count) then Some (count - 1) else None in
    let edge := if String.eqb which "prev" then last_index else first_index in
    let idx := match Prompt._file_current pr with
               | Some i => Some i
               | None => edge
               end in
    let idx := match idx with
               | None => None
               | Some i =>
                   if String.eqb which "prev" then
                     match i with 0 => None | S j => Some j end
                   else if decide (S i < count) then Some (S i) else None
               end in
    let idx := match idx with
               | Some i => Some i
               | None => edge
               end in
    update_prompt self (Prompt.set_file_current idx);;
    _insert_path self idx false.

(** [AuthenticationPrompt.item_focus] *)
Definition AuthenticationPrompt_item_focus (self : PromptRef)
    (which : string) : M unit :=
  if negb (which_ok which) then raise AssertionError
  else
    pr ← get_prompt self;
    if String.eqb which "next"
       && bool_decide (Prompt.focus pr = Focus_user_lineedit) then
      update_prompt self (Prompt.set_focus Focus_password_lineedit)
    else if String.eqb which "prev"
            && bool_decide (Prompt.focus pr = Focus_password_lineedit) then
      update_prompt self (Prompt.set_focus Focus_user_lineedit)
    else mret tt.

(** [prompt.item_focus(which)]: the classes without an override inherit
    [_BasePrompt.item_focus]. *)
Definition item_focus (self : PromptRef) (which : string) : M unit :=
  pr ← get_prompt self;
  match Prompt.klass pr with
  | FilenamePrompt | DownloadFilenamePrompt =>
      FilenamePrompt_item_focus self which
  | AuthenticationPrompt => AuthenticationPrompt_item_focus self which
  | LineEditPrompt | YesNoPrompt | AlertPrompt =>
      raise UnsupportedOperationError
  end.

(** [prompt.download_open(cmdline)]: only [DownloadFilenamePrompt]
    overrides [_BasePrompt.download_open]. *)
Definition download_open (self : PromptRef) (cmdline : option string)
    : M unit :=
  pr ← get_prompt self;
  match Prompt.klass pr with
  | DownloadFilenamePrompt =>
      set_answer self (OpenFileDownloadTarget cmdline);;
      log (Modeman_maybe_leave KeyMode.prompt "download open");;
      Question_done (Prompt.question pr)
  | _ => raise UnsupportedOperationError
  end.

(** Whether a class overrides the base method. *)
Definition supports_open_download (k : Klass) : bool :=
  match k with
  | DownloadFilenamePrompt => true
  | _ => false
  end.

Definition supports_item_navigation (k : Klass) : bool :=
  match k with
  | FilenamePrompt | DownloadFilenamePrompt | AuthenticationPrompt => true
  | _ => false
  end.

(** ** PromptContainer *)

(** [PromptContainer._show_prompt] *)
Definition _show_prompt (prompt : option PromptRef) : M bool :=
  w ← get;
  (if decide (length (_layout w) ≤ 1)%nat then mret tt else raise AssertionError);;
  (* item = self._layout.takeAt(0) *)
  match _layout w with
  | [] =>
      match _prompt w with
      | None => mret tt
      | Some _ => raise AssertionError
      end
  | item :: rest =>
      modify (set_layout rest);;
      match item with
      | QWidgetItem widget =>
          if decide (_prompt w = Some widget) then log (Widget_hide widget)
          else raise AssertionError
      | QLayoutItem_other => raise AssertionError
      end
  end;;
  modify (set_prompt prompt);;
  match prompt with
  | None =>
      log Container_hide;;
      mret false
  | Some p =>
      pr ← get_prompt p;
      let key_mode := KEY_MODE (Prompt.klass pr) in
      update_question (Prompt.question pr)
        (Question.connect_aborted (Slot_maybe_leave key_mode));;
      log (Modeman_enter key_mode "question asked");;
      modify (set_prompt (Some p));;
      modify (fun w => set_layout (_layout w ++ [QWidgetItem p]) w);;
      log (Widget_show p (Prompt.question pr));;
      log Container_show;;
      update_prompt p (Prompt.set_focus (focus_proxy (Prompt.klass pr)));;
      log Emit_update_geometry;;
      mret true
  end.

(** [PromptContainer.shutdown] *)
Definition shutdown : M bool :=
  modify (set_shutting_down true);;
  w ← get;
  match _loops w with
  | [] => mret false
  | _ :: _ =>
      for_each (fun loop => log (Loop_quit loop);; log (Loop_deleteLater loop))
               (_loops w);;
      mret true
  end.

(** [PromptContainer.prompt_accept] *)
Definition prompt_accept (value : option string) : M unit :=
  w ← get;
  match _prompt w with
  | None => raise AttributeError
  | Some p =>
      done ← try_except_Error (accept p value)
                              (fun msg => raise (CommandError msg));
      if done : bool then
        pr ← get_prompt p;
        let key_mode := KEY_MODE (Prompt.klass pr) in
        Question_done (Prompt.question pr);;
        log (Modeman_maybe_leave key_mode ":prompt-accept")
      else mret tt
  end.

Definition prompt_yes : M unit := prompt_accept (Some "yes").
Definition prompt_no : M unit := prompt_accept (Some "no").

(** [PromptContainer.on_mode_left] *)
Definition on_mode_left (mode : KeyMode.t) : M unit :=
  w ← get;
  match _prompt w with
  | None => mret tt
  | Some p =>
      pr ← get_prompt p;
      if decide (mode = KEY_MODE (Prompt.klass pr)) then
        let question := Prompt.question pr in
        _show_prompt None;;
        qq ← get_question question;
        match Question.answer qq with
        | None =>
            if negb (Question.is_aborted qq) then Question_cancel question
            else mret tt
        | Some _ => mret tt
        end
      else mret tt
  end.

(** [PromptContainer.prompt_open_download] *)
Definition prompt_open_download (cmdline : option string) : M unit :=
  w ← get;
  match _prompt w with
  | None => raise AttributeError
  | Some p => try_except_Unsupported (download_open p cmdline)
  end.

(** [PromptContainer.prompt_item_focus] *)
Definition prompt_item_focus (which : string) : M unit :=
  w ← get;
  match _prompt w with
  | None => raise AttributeError
  | Some p => try_except_Unsupported (item_focus p which)
  end.

(** The [classes] dictionary of [ask_question]; a mode without an entry
    makes [classes[question.mode]] raise [KeyError]. *)
Definition classes (mode : PromptMode.t) : option Klass :=
  match mode with
  | PromptMode.yesno => Some YesNoPrompt
  | PromptMode.text => Some LineEditPrompt
  | PromptMode.user_pwd => Some AuthenticationPrompt
  | PromptMode.download => Some DownloadFilenamePrompt
  | PromptMode.alert => Some AlertPrompt
  | PromptMode.filename => None
  end.

(** A call of [ask_question] either returns, or reaches [loop.exec_()]
    with its event loop and the prompt it saved. *)
Inductive AskState :=
| Returned (result : option Value)
| Suspended (loop : LoopRef) (old_prompt : option PromptRef).

(** [qtutils.EventLoop()] *)
Definition EventLoop_new : M LoopRef :=
  w ← get;
  modify (set_next_loop (S (next_loop w)));;
  mret (next_loop w).

(** The producer of a question deletes it (a cancelled download does):
    from then on [sip.isdeleted(question)] holds. *)
Definition question_deleted (q : QuestionRef) : M unit :=
  update_question q Question.set_deleted.

(** The slot connected to [loop.destroyed]: [self._loops.remove(loop)]. *)
Fixpoint list_remove (x : LoopRef) (l : list LoopRef) : option (list LoopRef) :=
  match l with
  | [] => None
  | y :: l' => if decide (x = y) then Some l'
               else cons y <$> list_remove x l'
  end.

Definition on_loop_destroyed (loop : LoopRef) : M unit :=
  w ← get;
  match list_remove loop (_loops w) with
  | None => raise ValueError
  | Some l => modify (set_loops l)
  end.

(** [PromptContainer.ask_question] up to [loop.exec_()]. *)
Definition ask_question_enter (question : QuestionRef) (blocking : bool)
    : M AskState :=
  w ← get;
  if _shutting_down w then
    Question_abort question;;
    mret (Returned None)
  else if bool_decide (_prompt w ≠ None) && negb blocking then
    modify (set_queue (_queue w ++ [question]));;
    mret (Returned None)
  else
    let old_prompt := _prompt w in
    qq ← get_question question;
    match classes (Question.mode qq) with
    | None => raise KeyError
    | Some klass =>
        p ← new_prompt klass question;
        _show_prompt (Some p);;
        if blocking then
          loop ← EventLoop_new;
          modify (fun w => set_loops (_loops w ++ [loop]) w);;
          update_question question
            (Question.connect_completed (Slot_loop_quit loop));;
          update_question question
            (Question.connect_completed (Slot_loop_deleteLater loop));;
          mret (Suspended loop old_prompt)
        else
          update_question question
            (Question.connect_completed Slot_pop_later);;
          mret (Returned None)
    end.

(** [PromptContainer.ask_question] after [loop.exec_()] has returned. *)
Definition ask_question_resume (question : QuestionRef)
    (old_prompt : option PromptRef) : M (option Value) :=
  shown ← _show_prompt old_prompt;
  (if negb shown then
     w ← get;
     match _queue w with
     | [] => mret tt
     | _ :: _ => _pop_later
     end
   else mret tt);;
  qq ← get_question question;
  mret (Question.answer qq).

Section EventLoop.

(** What happens while a local event loop spins, from [loop.exec_()] being
    called until it returns: other events are handled, among them the
    commands that answer the question and further calls of
    [ask_question]. *)
Variable exec_ : LoopRef -> World -> World.

(** [PromptContainer.ask_question] *)
Definition ask_question (question : QuestionRef) (blocking : bool)
    : M (option Value) :=
  st ← ask_question_enter question blocking;
  match st with
  | Returned result => mret result
  | Suspended loop old_prompt =>
      modify (exec_ loop);;
      ask_question_resume question old_prompt
  end.

(** [PromptContainer._pop] *)
Definition _pop : M unit :=
  w ← get;
  match _queue w with
  | [] => mret tt
  | question :: rest =>
      modify (set_queue rest);;
      qq ← get_question question;
      if Question.deleted qq then mret tt
      else ask_question question false;; mret tt
  end.

End EventLoop.

(** ** Events handled by the container, and runs of them *)

(** An event loop during which nothing happens. *)
Definition idle_loop : LoopRef -> World -> World := fun _ w => w.

(** What the environment makes the container do.  A blocking ask carries
    the events that are handled while its local event loop spins; among
    them may be further blocking asks, with their own events. *)
#[local] Unset Elimination Schemes.
Inductive Event :=
| Ev_ask (question : QuestionRef)     (* a producer calls ask_question(question, blocking=False) *)
| Ev_ask_blocking (question : QuestionRef) (during : list Event)
                                      (* ask_question(question, blocking=True) *)
| Ev_accept (value : option string)   (* the command prompt-accept *)
| Ev_open_download (cmdline : option string)
                                      (* the command prompt-open-download *)
| Ev_item_focus (which : string)      (* the command prompt-item-focus *)
| Ev_mode_left (mode : KeyMode.t)     (* the mode manager calls on_mode_left *)
| Ev_timer                            (* a timer set by _pop_later fires *)
| Ev_loop_destroyed (loop : LoopRef)  (* Qt deleted the loop of a blocking ask *)
| Ev_question_deleted (question : QuestionRef)
                                      (* its producer deleted the question *)
| Ev_shutdown.                        (* shutdown() *)
#[local] Set Elimination Schemes.

(** An exception raised by a handler is reported by Qt and not passed on:
    the events that follow are handled all the same. *)
Fixpoint handle (ev : Event) : M unit :=
  match ev with
  | Ev_ask question => ask_question idle_loop question false;; mret tt
  | Ev_ask_blocking question during =>
      ask_question
        (fun _ =>
           (fix events (evs : list Event) (w : World) : World :=
              match evs with
              | [] => w
              | ev' :: evs' => events evs' (snd (handle ev' w))
              end) during)
        question true;;
      mret tt
  | Ev_accept value => prompt_accept value
  | Ev_open_download cmdline => prompt_open_download cmdline
  | Ev_item_focus which => prompt_item_focus which
  | Ev_mode_left mode => on_mode_left mode
  | Ev_timer =>
      w ← get;
      match pending_pops w with
      | 0 => mret tt
      | S n => modify (set_pending_pops n);; _pop idle_loop
      end
  | Ev_loop_destroyed loop => on_loop_destroyed loop
  | Ev_question_deleted question => question_deleted question
  | Ev_shutdown => shutdown;; mret tt
  end.

(** The state after the events [evs], handled one after the other. *)
Fixpoint events (evs : list Event) (w : World) : World :=
  match evs with
  | [] => w
  | ev :: evs' => events evs' (snd (handle ev w))
  end.



(** The questions whose prompt was put on display, in the order of the
    [show()] calls on the prompts. *)
Definition served (w : World) : list QuestionRef :=
  omap (fun e => match e with
                 | Widget_show _ question => Some question
                 | _ => None
                 end) (trace w).

(** ** Key hints of a prompt *)

(** [s.replace(old, new)] for a one-character [old]. *)
Fixpoint replace_char (old : ascii) (new : string) (s : string) : string :=
  match s with
  | EmptyString => EmptyString
  | String a rest =>
      if Ascii.eqb a old then new +:+ replace_char old new rest
      else String a (replace_char old new rest)
  end.

(** [html.escape(s)] of the Python library, with its default [quote=True]:
    the ampersand first, then the angle brackets, then the two quotes. *)
Definition html_escape (s : string) : string :=
  replace_char "'" "&#x27;"
    (replace_char "034" "&quot;"
       (replace_char ">" "&gt;"
          (replace_char "<" "&lt;"
             (replace_char "&" "&amp;" s)))).

(** [preferred] of [_BasePrompt._init_key_label]. *)
Definition preferred : list string := ["<enter>"; "<escape>"].

(** The loop over [preferred]: [binding] starts as [None] and is set to
    every preferred key found among the bindings, so the last one found
    stays. *)
Definition preferred_binding (bindings : list string) : option string :=
  foldl (fun binding pref =>
           if bool_decide (pref ∈ bindings) then Some pref else binding)
        None preferred.

(** The key shown for a command with the bindings [bindings]; none when
    [if bindings:] fails. *)
Definition key_binding (bindings : list string) : option string :=
  match bindings with
  | [] => None
  | first :: _ => Some (default first (preferred_binding bindings))
  end.

(** A command for which [all_bindings.get(cmd, [])] is not empty. *)
Definition bound (all_bindings : gmap string (list string))
    (cmd : string * string) : Prop :=
  default [] (all_bindings !! cmd.1) ≠ [].

#[global] Instance bound_dec all_bindings cmd :
  Decision (bound all_bindings cmd) := ltac:(unfold bound; apply _).

(** [labels] of [_BasePrompt._init_key_label]: the texts of the two
    [QLabel]s of every command that has a binding.  [all_bindings] is the
    dictionary [key_config.get_reverse_bindings_for('prompt')]. *)
Definition key_labels (all_bindings : gmap string (list string))
    (cmds : list (string * string)) : list (string * string) :=
  omap (fun '(cmd, text) =>
          binding ← key_binding (default [] (all_bindings !! cmd));
          Some ("<b>" +:+ html_escape binding +:+ "</b>", text))
       cmds.

(** The cells of [self._key_grid]: row [i] holds the two labels of the
    [i]-th entry of [labels]. *)
Definition _key_grid (labels : list (string * string))
    : list (nat * nat * string) :=
  mjoin (imap (fun i '(key_label, text_label) =>
                 [(i, 0, key_label); (i, 1, text_label)]) labels).

(** [_BasePrompt._init_key_label] of a prompt of the class [k], down to the
    cells of the grid. *)
Definition _init_key_label_grid (all_bindings : gmap string (list string))
    (k : Klass) (qq : Question.t) : Res (list (nat * nat * string)) :=
  cmds ← _allowed_commands k qq;
  Ok (_key_grid (key_labels all_bindings cmds)).

(** [QLabel('<b>{}</b>'.format(question.title))] of
    [_BasePrompt._init_title], followed by the label of [question.text] if
    there is one. *)
Definition _init_title_labels (qq : Question.t) : Res (list string) :=
  match Question.title qq with
  | None => Raise AssertionError
  | Some title =>
      Ok (("<b>" +:+ title +:+ "</b>")
          :: match Question.text qq with
             | Some text => [text]
             | None => []
             end)
  end.

(** ** The root of the file view *)

(** [s.endswith(c)] for a one-character [c]. *)
Fixpoint endswith_char (c : ascii) (s : string) : bool :=
  match s with
  | EmptyString => false
  | String a rest =>
      match rest with
      | EmptyString => Ascii.eqb a c
      | String _ _ => endswith_char c rest
      end
  end.

(** [os.path.basename(p)]: what follows the last slash of [p]. *)
Fixpoint basename (p : string) : string :=
  match p with
  | EmptyString => EmptyString
  | String a rest =>
      if contains_char "/" rest then basename rest
      else if Ascii.eqb a "/" then rest
      else p
  end.

(** [FilenamePrompt._set_fileview_root]: the root path of the file view
    after the call, given the root before it ([None] while none was set).
    [isdir] is [os.path.isdir] on the file system of the moment.  The
    result of [path.rstrip('/')] is dropped by the source. *)
Definition _set_fileview_root (isdir : string -> bool) (path : string)
    (root : option string) : option string :=
  if negb (endswith_char "/" path) || String.eqb path "/" then root
  else
    let path :=
      if isdir path then Some path
      else if isdir (basename path) then Some (basename path)
      else None in
    match path with
    | None => root
    | Some path => Some path
    end.

(** ** Vocabulary of the properties *)

(** The layout holds the widget of the current prompt and nothing else:
    the condition the assertions of [_show_prompt] check. *)
Definition layout_ok (w : World) : Prop :=
  _layout w = match _prompt w with
              | Some p => [QWidgetItem p]
              | None => []
              end.

(** Well-formed worlds: the layout agrees with the current prompt, the
    current prompt is in the store, and so is the question of every prompt
    object. *)
Definition wf (w : World) : Prop :=
  layout_ok w
  ∧ (∀ p, _prompt w = Some p -> p < length (prompts w))
  ∧ Forall (fun q => q < length (questions w)) (Prompt.question <$> prompts w).

(** Two worlds with the same current prompt, the same layout, as many
    questions, and prompt objects that wrap the same questions. *)
Definition steady (w w' : World) : Prop :=
  _prompt w' = _prompt w
  ∧ _layout w' = _layout w
  ∧ length (questions w') = length (questions w)
  ∧ Prompt.question <$> prompts w' = Prompt.question <$> prompts w.

(** Methods that leave all that as it is. *)
Definition Steady {A} (m : M A) : Prop := ∀ w, steady w (snd (m w)).

(** From [w] to [w']: well-formedness is kept and no prompt object left
    the store. *)
Definition kept (w w' : World) : Prop :=
  wf w' ∧ (length (prompts w) ≤ length (prompts w'))%nat.

(** A method that, run on a well-formed world where [P] holds, keeps it
    well-formed and returns values that satisfy [Q]. *)
Definition Keeps {A} (P : World -> Prop) (m : M A) (Q : A -> World -> Prop)
    : Prop :=
  ∀ w, wf w -> P w ->
    kept w (snd (m w)) ∧ ∀ a, fst (m w) = Ok a -> Q a (snd (m w)).

(** A prompt reference that names a prompt whose question is in the store. *)
Definition valid_prompt (w : World) (p : PromptRef) : Prop :=
  ∃ pr qq, prompts w !! p = Some pr
           ∧ questions w !! Prompt.question pr = Some qq.

(** The state [_show_prompt(None)] leaves behind. *)
Definition cleared (w : World) : World :=
  set_trace (trace w ++ match _prompt w with
                        | Some p => [Widget_hide p]
                        | None => []
                        end ++ [Container_hide])
    (set_prompt None (set_layout [] w)).

(** The state [_show_prompt(p)] leaves behind, for the prompt object [pr]
    at [p] and the question object [qq] it wraps. *)
Definition displayed (p : PromptRef) (pr : Prompt.t) (qq : Question.t)
    (w : World) : World :=
  let key_mode := KEY_MODE (Prompt.klass pr) in
  set_trace (trace w ++ match _prompt w with
                        | Some p' => [Widget_hide p']
                        | None => []
                        end
                     ++ [Modeman_enter key_mode "question asked";
                         Widget_show p (Prompt.question pr);
                         Container_show; Emit_update_geometry])
    (set_prompts (<[p := Prompt.set_focus (focus_proxy (Prompt.klass pr)) pr]>
                    (prompts w))
       (set_questions (<[Prompt.question pr :=
                           Question.connect_aborted (Slot_maybe_leave key_mode) qq]>
                         (questions w))
          (set_prompt (Some p) (set_layout [QWidgetItem p] w)))).

(** The state in which [ask_question] has put the new prompt [pr] of the
    question [qq] at [q] on display and made its connections: right before
    [loop.exec_()] for a blocking call, at the return for the other. *)
Definition entered (q : QuestionRef) (qq : Question.t) (pr : Prompt.t)
    (blocking : bool) (w : World) : World :=
  let p := length (prompts w) in
  let loop := next_loop w in
  let key_mode := KEY_MODE (Prompt.klass pr) in
  let qq1 := Question.connect_aborted (Slot_maybe_leave key_mode) qq in
  let qq2 := if blocking
             then Question.connect_completed (Slot_loop_deleteLater loop)
                    (Question.connect_completed (Slot_loop_quit loop) qq1)
             else Question.connect_completed Slot_pop_later qq1 in
  mkWorld (Some p) false
    (if blocking then _loops w ++ [loop] else _loops w)
    (_queue w) [QWidgetItem p]
    (<[q := qq2]> (questions w))
    (prompts w ++ [Prompt.set_focus (focus_proxy (Prompt.klass pr)) pr])
    (if blocking then S loop else loop)
    (pending_pops w) (file_rows w)
    (trace w ++ match _prompt w with
                | Some p' => [Widget_hide p']
                | None => []
                end
             ++ [Modeman_enter key_mode "question asked";
                 Widget_show p q; Container_show; Emit_update_geometry]).

(** The state a prompt leaves behind when it stores [v] as the answer of
    its question [qq] at [q]. *)
Definition answered (q : QuestionRef) (qq : Question.t) (v : Value)
    (w : World) : World :=
  set_questions (<[q := Question.set_answer_attr (Some v) qq]> (questions w)) w.

(** What emitting a signal with the slots [slots] adds to the trace, and
    how many timers it sets. *)
Definition slot_effect (s : Slot) : option Effect :=
  match s with
  | Slot_maybe_leave km => Some (Modeman_maybe_leave km "aborted")
  | Slot_loop_quit loop => Some (Loop_quit loop)
  | Slot_loop_deleteLater loop => Some (Loop_deleteLater loop)
  | Slot_pop_later => None
  end.

Definition slot_pops (s : Slot) : nat :=
  match s with
  | Slot_pop_later => 1
  | _ => 0
  end.

Definition emitted (slots : list Slot) (w : World) : World :=
  set_trace (trace w ++ omap slot_effect slots)
    (set_pending_pops (pending_pops w + sum_list (slot_pops <$> slots)) w).

(** The questions on which [abort()] was called, in the order of the
    calls. *)
Definition aborted (w : World) : list QuestionRef :=
  omap (fun e => match e with
                 | Call_abort question => Some question
                 | _ => None
                 end) (trace w).

(** Events without a call of [shutdown()], also while the loop of a
    blocking ask spins. *)
Fixpoint calm (ev : Event) : bool :=
  match ev with
  | Ev_shutdown => false
  | Ev_ask_blocking _ during => forallb calm during
  | _ => true
  end.

(** What a run after [shutdown()] is observed by: the flag, the questions
    served, the queue. *)
Definition display_state (w : World) : bool * list QuestionRef * list QuestionRef :=
  (_shutting_down w, served w, _queue w).

(** What a run before [shutdown()] is observed by: the flag and the
    questions aborted. *)
Definition abort_state (w : World) : bool * list QuestionRef :=
  (_shutting_down w, aborted w).

(** A method that leaves the observation [obs] of the world as it is,
    whatever it returns or raises. *)
Definition Leaves {X A} (obs : World -> X) (m : M A) : Prop :=
  ∀ w, obs (snd (m w)) = obs w.




Section Service.

Variable exec_ : LoopRef -> World -> World.



End Service.




(** The property of the specification's factory as it is stated: every
    mode of the enumeration has a class. *)
Definition factory_total : Prop :=
  ∀ mode, mode ∈ PromptMode.all → is_Some (classes mode).

(** ** Example worlds *)

(** Five questions in the hands of their producers: a yes/no question with
    a default, a request for credentials, two requests for text, and a
    question of the mode that only the specification names. *)
Definition example_questions : list Question.t :=
  [Question.new PromptMode.yesno (Some "Quit?") (Some (VBool true));
   Question.new PromptMode.user_pwd (Some "Login") None;
   Question.new PromptMode.text (Some "Name?") None;
   Question.new PromptMode.text (Some "City?") None;
   Question.new PromptMode.filename (Some "Save as") (Some (VStr "/tmp/"))].

Definition example_init : World := init example_questions [].

(** The container after a non-blocking ask of the yes/no question, of the
    credentials, of the first text. *)
Definition example_yesno : World :=
  snd (ask_question idle_loop 0 false example_init).
Definition example_auth : World :=
  snd (ask_question idle_loop 1 false example_init).


(** The container with a question in the queue, right after the prompt of
    another was left; and the same after [shutdown()]. *)
Definition example_left : World :=
  events [Ev_ask 2; Ev_ask 1; Ev_mode_left KeyMode.prompt] example_init.

Definition example_shut : World := snd (shutdown example_left).

(** Four text questions, and the run in which the first is cancelled, the
    fourth is asked before the timer set by the cancellation fires, and
    every later prompt is cancelled in turn. *)
Definition race_questions : list Question.t :=
  [Question.new PromptMode.text (Some "A") None;
   Question.new PromptMode.text (Some "B") None;
   Question.new PromptMode.text (Some "C") None;
   Question.new PromptMode.text (Some "D") None].

Definition race_events : list Event :=
  [Ev_ask 0; Ev_ask 1; Ev_ask 2;
   Ev_mode_left KeyMode.prompt;
   Ev_ask 3;
   Ev_timer;
   Ev_mode_left KeyMode.prompt; Ev_timer;
   Ev_mode_left KeyMode.prompt; Ev_timer].

(** ** Proof automation: running a method on a symbolic world *)

Ltac munfold :=
  unfold mbind, mret, M_bind, M_ret, Res_bind, Res_ret,
         get, modify, log, raise, lift,
         get_question, update_question, get_prompt, update_prompt.

Ltac mred := repeat (progress (munfold; cbn)).

Ltac mrun :=
  repeat first
    [ progress mred
    | rewrite decide_True by (done || lia)
    | rewrite decide_False by (done || lia)
    | match goal with
      | H : ?l !! ?i = _ |- context [?l !! ?i] => rewrite H
      end ].

(** Unfolding the named post-states everywhere. *)
Ltac wsimpl :=
  unfold cleared, displayed, answered, emitted, entered in *; cbn in *.

(** Case analysis on the innermost stuck scrutinee. *)
Ltac mcases :=
  repeat first
    [ progress mrun
    | congruence
    | match goal with
      | |- context [match ?x with _ => _ end] =>
          lazymatch x with
          | context [match _ with _ => _ end] => fail
          | _ => destruct x eqn:?
          end
      end ].

(** * Properties *)

(** ** Strings *)

Lemma append_nil (s : string) : "" +:+ s = s.
Proof. reflexivity. Qed.

Lemma append_cons (a : ascii) (u s : string) :
  String a u +:+ s = String a (u +:+ s).
Proof. reflexivity. Qed.

Lemma split_maxsplit1_first (sep : ascii) (u rest : string) :
  contains_char sep u = false ->
  split_maxsplit1 sep (u +:+ String sep rest) = [u; rest].
Proof.
  induction u as [|a u IH]; intros H.
  - rewrite append_nil. cbn -[Ascii.eqb]. by rewrite Ascii.eqb_refl.
  - rewrite append_cons. cbn -[Ascii.eqb] in *.
    destruct (Ascii.eqb a sep); [done|]. by rewrite IH.
Qed.

Lemma contains_char_app (sep : ascii) (u rest : string) :
  contains_char sep (u +:+ String sep rest) = true.
Proof.
  induction u as [|a u IH].
  - rewrite append_nil. cbn -[Ascii.eqb]. by rewrite Ascii.eqb_refl.
  - rewrite append_cons. cbn -[Ascii.eqb]. by destruct (Ascii.eqb a sep).
Qed.

Lemma contains_char_split (sep : ascii) (v : string) :
  contains_char sep v = true ->
  ∃ u rest, v = u +:+ String sep rest
            ∧ contains_char sep u = false
            ∧ split_maxsplit1 sep v = [u; rest].
Proof.
  induction v as [|a v IH]; cbn -[Ascii.eqb]; [done|].
  destruct (Ascii.eqb a sep) eqn:E.
  - intros _. apply Ascii.eqb_eq in E as ->. by exists "", v.
  - intros (u & rest & Hv & Hu & Hs)%IH.
    exists (String a u), rest. rewrite append_cons, <- Hv, Hs.
    cbn -[Ascii.eqb]. by rewrite E.
Qed.

Lemma String_eqb_false (a b : string) : a ≠ b -> String.eqb a b = false.
Proof. intros H. by apply String.eqb_neq. Qed.

(** ** The container's building blocks *)

Lemma show_none_spec w :
  layout_ok w -> _show_prompt None w = (Ok false, cleared w).
Proof.
  unfold layout_ok, _show_prompt, cleared. intros H.
  destruct w as [pr sd lo qu la qs ps nl pp fr tr]; cbn in *. subst la.
  destruct pr as [p|]; mrun; rewrite <- ?app_assoc; reflexivity.
Qed.

Lemma show_some_spec w p pr qq :
  layout_ok w -> prompts w !! p = Some pr ->
  questions w !! Prompt.question pr = Some qq ->
  _show_prompt (Some p) w = (Ok true, displayed p pr qq w).
Proof.
  unfold layout_ok, _show_prompt, displayed. intros H Hp Hq.
  destruct w as [cur sd lo qu la qs ps nl pp fr tr]; cbn in *. subst la.
  destruct cur as [p'|]; mrun; rewrite <- ?app_assoc; reflexivity.
Qed.

Lemma emit_spec slots w : emit slots w = (Ok tt, emitted slots w).
Proof.
  unfold emit, emitted. revert w.
  induction slots as [|s slots IH]; intros w.
  - destruct w; mrun. by rewrite Nat.add_0_r, app_nil_r.
  - cbn [for_each]. unfold mbind at 1, M_bind at 1.
    destruct s; cbn [run_slot]; unfold _pop_later; mrun; rewrite IH;
      destruct w; mrun; rewrite <- ?app_assoc; repeat f_equal; lia.
Qed.

Lemma Question_cancel_spec w q qq :
  questions w !! q = Some qq ->
  Question_cancel q w =
  (Ok tt,
   if Question.completed qq then set_trace (trace w ++ [Call_cancel q]) w
   else emitted (Question.completed_slots qq)
          (set_questions (<[q := Question.set_aborted qq]> (questions w))
             (set_trace (trace w ++ [Call_cancel q]) w))).
Proof.
  intros Hq. unfold Question_cancel. mrun.
  destruct (Question.completed qq); mrun; [done|].
  by rewrite emit_spec.
Qed.

Lemma Question_abort_spec w q qq :
  questions w !! q = Some qq ->
  Question_abort q w =
  (Ok tt,
   if Question.completed qq then set_trace (trace w ++ [Call_abort q]) w
   else emitted (Question.completed_slots qq)
          (emitted (Question.aborted_slots qq)
             (set_questions (<[q := Question.set_aborted qq]> (questions w))
                (set_trace (trace w ++ [Call_abort q]) w)))).
Proof.
  intros Hq. unfold Question_abort. mrun.
  destruct (Question.completed qq); mrun; [done|].
  by rewrite !emit_spec.
Qed.

Lemma construct_inv k q qq pr :
  construct k q qq = Ok pr -> ∃ line, pr = blank k q line.
Proof.
  unfold construct, _init_title, _init_key_label, _allowed_commands,
    lineedit_default, _set_fileview_root_default.
  destruct k; mred;
    repeat (match goal with
            | |- context [match ?x with _ => _ end] => destruct x
            end; mred);
    intros H; simplify_eq; eauto.
Qed.

Lemma accept_Error_unchanged p value w msg w' :
  accept p value w = (Raise (Error msg), w') -> w' = w.
Proof.
  unfold accept, LineEditPrompt_accept, DownloadFilenamePrompt_accept,
    AuthenticationPrompt_accept, YesNoPrompt_accept, AlertPrompt_accept,
    set_answer.
  mcases.
Qed.



(** ** Lemmas on the queue and on rounds of service *)





Section ServiceLemmas.
Variable exec_ : nat -> World -> World.




Lemma pop_empty w : _queue w = [] -> _pop exec_ w = (Ok tt, w).
Proof. intros H. unfold _pop. mrun. rewrite H. by mrun. Qed.



End ServiceLemmas.

(** ** Methods that leave the current prompt and the layout alone *)

Lemma steady_refl w : steady w w.
Proof. done. Qed.

Lemma steady_trans w1 w2 w3 : steady w1 w2 -> steady w2 w3 -> steady w1 w3.
Proof. unfold steady. intros (?&?&?&?) (?&?&?&?). repeat split; congruence. Qed.

Lemma steady_wf w w' : wf w -> steady w w' -> wf w' ∧ length (prompts w) = length (prompts w').
Proof.
  unfold wf, steady, layout_ok. intros (Hl & Hp & Hq) (H1 & H2 & H3 & H4).
  assert (Hlen : length (prompts w) = length (prompts w')).
  { by rewrite <- (length_fmap Prompt.question), <- H4, length_fmap. }
  repeat split; try done.
  - by rewrite H1, H2.
  - intros p. rewrite H1, <- Hlen. apply Hp.
  - by rewrite H3, H4.
Qed.

Lemma Steady_bind {A B} (m : M A) (f : A -> M B) :
  Steady m -> (∀ a, Steady (f a)) -> Steady (m ≫= f).
Proof.
  intros Hm Hf w. unfold mbind, M_bind. specialize (Hm w).
  destruct (m w) as [[a|e] w1]; cbn in *; [|done].
  eapply steady_trans; [exact Hm|apply Hf].
Qed.

Lemma Steady_ret {A} (a : A) : Steady (mret a).
Proof. by intros w. Qed.
Lemma Steady_get : Steady get.
Proof. by intros w. Qed.
Lemma Steady_raise {A} e : Steady (@raise A e).
Proof. by intros w. Qed.
Lemma Steady_lift {A} (r : Res A) : Steady (lift r).
Proof. by intros w. Qed.
Lemma Steady_log e : Steady (log e).
Proof. by intros w. Qed.
Lemma Steady_pop_later : Steady _pop_later.
Proof. by intros w. Qed.
Lemma Steady_set_queue l : Steady (modify (set_queue l)).
Proof. by intros w. Qed.
Lemma Steady_set_shutting_down b : Steady (modify (set_shutting_down b)).
Proof. by intros w. Qed.
Lemma Steady_set_next_loop n : Steady (modify (set_next_loop n)).
Proof. by intros w. Qed.
Lemma Steady_set_pending_pops n : Steady (modify (set_pending_pops n)).
Proof. by intros w. Qed.
Lemma Steady_set_loops l : Steady (modify (fun w => set_loops (l w) w)).
Proof. by intros w. Qed.

Lemma Steady_get_question q : Steady (get_question q).
Proof. intros w. unfold get_question. mred. by destruct (questions w !! q). Qed.
Lemma Steady_get_prompt p : Steady (get_prompt p).
Proof. intros w. unfold get_prompt. mred. by destruct (prompts w !! p). Qed.

Lemma Steady_update_question q f : Steady (update_question q f).
Proof.
  intros w. unfold update_question, get_question. mred.
  destruct (questions w !! q); [|done]. cbn.
  repeat split; try done. cbn. apply length_insert.
Qed.

Lemma Steady_update_prompt p f :
  (∀ pr, Prompt.question (f pr) = Prompt.question pr) ->
  Steady (update_prompt p f).
Proof.
  intros Hf w. unfold update_prompt, get_prompt. mred.
  destruct (prompts w !! p) as [pr|] eqn:Hp; [|done]. cbn.
  repeat split; try done. cbn.
  rewrite list_fmap_insert, Hf. apply list_insert_id.
  by rewrite list_lookup_fmap, Hp.
Qed.

Create HintDb steady discriminated.
#[local] Hint Resolve Steady_ret Steady_get Steady_raise Steady_lift Steady_log
  Steady_pop_later Steady_set_queue Steady_set_shutting_down
  Steady_set_next_loop Steady_set_pending_pops Steady_get_question
  Steady_get_prompt Steady_update_question : steady.

Ltac steady_step :=
  first
    [ solve [auto with steady]
    | apply Steady_update_prompt; solve [intros []; reflexivity]
    | apply Steady_bind; [|intros ?]
    | match goal with
      | |- Steady (match ?x with _ => _ end) => destruct x
      end ].
Ltac steady := repeat steady_step.

Lemma Steady_for_each {A} (f : A -> M unit) l :
  (∀ a, Steady (f a)) -> Steady (for_each f l).
Proof. intros Hf. induction l; cbn [for_each]; steady; auto. Qed.

Lemma Steady_emit slots : Steady (emit slots).
Proof. apply Steady_for_each. intros []; cbn; steady. Qed.

#[local] Hint Resolve Steady_emit : steady.

Lemma Steady_Question_done q : Steady (Question_done q).
Proof. unfold Question_done. steady. Qed.
Lemma Steady_Question_cancel q : Steady (Question_cancel q).
Proof. unfold Question_cancel. steady. Qed.
Lemma Steady_Question_abort q : Steady (Question_abort q).
Proof. unfold Question_abort. steady. Qed.

#[local] Hint Resolve Steady_Question_done Steady_Question_cancel
  Steady_Question_abort : steady.

Lemma Steady_set_answer self v : Steady (set_answer self v).
Proof. unfold set_answer. steady. Qed.
#[local] Hint Resolve Steady_set_answer : steady.

Lemma Steady_accept self value : Steady (accept self value).
Proof.
  unfold accept, LineEditPrompt_accept, DownloadFilenamePrompt_accept,
    AuthenticationPrompt_accept, YesNoPrompt_accept, AlertPrompt_accept.
  steady.
Qed.

Lemma Steady_download_open self c : Steady (download_open self c).
Proof. unfold download_open. steady. Qed.

Lemma Steady_item_focus self which : Steady (item_focus self which).
Proof.
  unfold item_focus, FilenamePrompt_item_focus, AuthenticationPrompt_item_focus,
    _insert_path.
  steady.
Qed.

Lemma Steady_on_loop_destroyed loop : Steady (on_loop_destroyed loop).
Proof.
  unfold on_loop_destroyed. steady; by intros ?.
Qed.

Lemma Steady_shutdown : Steady shutdown.
Proof.
  unfold shutdown. steady.
  apply Steady_for_each. intros loop. steady.
Qed.

Lemma Steady_prompt_accept value : Steady (prompt_accept value).
Proof.
  unfold prompt_accept. steady.
  intros w. unfold try_except_Error.
  pose proof (Steady_accept n value w) as H.
  destruct (accept n value w) as [[b|[]] w']; done.
Qed.

Lemma Steady_prompt_open_download c : Steady (prompt_open_download c).
Proof.
  unfold prompt_open_download. steady.
  intros w. unfold try_except_Unsupported.
  pose proof (Steady_download_open n c w) as H.
  destruct (download_open n c w) as [[b|[]] w']; done.
Qed.

Lemma Steady_prompt_item_focus which : Steady (prompt_item_focus which).
Proof.
  unfold prompt_item_focus. steady.
  intros w. unfold try_except_Unsupported.
  pose proof (Steady_item_focus n which w) as H.
  destruct (item_focus n which w) as [[b|[]] w']; done.
Qed.

(** ** Well-formed worlds: an invariant of every run *)

Lemma Event_nested_ind (P : Event -> Prop) :
  (∀ q, P (Ev_ask q)) ->
  (∀ q during, Forall P during -> P (Ev_ask_blocking q during)) ->
  (∀ v, P (Ev_accept v)) ->
  (∀ c, P (Ev_open_download c)) ->
  (∀ wh, P (Ev_item_focus wh)) ->
  (∀ m, P (Ev_mode_left m)) ->
  P Ev_timer ->
  (∀ l, P (Ev_loop_destroyed l)) ->
  (∀ q, P (Ev_question_deleted q)) ->
  P Ev_shutdown ->
  ∀ ev, P ev.
Proof.
  intros Ha Hb Hc Hd He Hf Hg Hh Hj Hi.
  refine (fix IH (ev : Event) : P ev :=
            match ev with
            | Ev_ask q => Ha q
            | Ev_ask_blocking q during =>
                Hb q during
                  ((fix go (l : list Event) : Forall P l :=
                      match l with
                      | [] => Forall_nil_2 P
                      | e :: l' => Forall_cons_2 P e l' (IH e) (go l')
                      end) during)
            | Ev_accept v => Hc v
            | Ev_open_download c => Hd c
            | Ev_item_focus wh => He wh
            | Ev_mode_left m => Hf m
            | Ev_timer => Hg
            | Ev_loop_destroyed l => Hh l
            | Ev_question_deleted q => Hj q
            | Ev_shutdown => Hi
            end).
Qed.


Lemma steady_kept w w' : wf w -> steady w w' -> kept w w'.
Proof.
  intros Hw Hs. destruct (steady_wf _ _ Hw Hs) as [? Hlen].
  split; [done|]. by rewrite Hlen.
Qed.

Lemma kept_trans w1 w2 w3 : kept w1 w2 -> kept w2 w3 -> kept w1 w3.
Proof. unfold kept. intros [? ?] [? ?]. split; [done|lia]. Qed.

Lemma wf_valid w p : wf w -> p < length (prompts w) -> valid_prompt w p.
Proof.
  intros (_ & _ & Hq) Hp.
  destruct (lookup_lt_is_Some_2 _ _ Hp) as [pr Hpr].
  assert (Prompt.question pr < length (questions w)) as Hlt.
  { eapply Forall_forall in Hq; [exact Hq|].
    apply list_elem_of_fmap. exists pr. split; [done|].
    by eapply list_elem_of_lookup_2. }
  destruct (lookup_lt_is_Some_2 _ _ Hlt) as [qq Hqq].
  by exists pr, qq.
Qed.

Lemma show_kept w prompt :
  wf w ->
  (∀ p, prompt = Some p -> p < length (prompts w)) ->
  kept w (snd (_show_prompt prompt w))
  ∧ _prompt (snd (_show_prompt prompt w)) = prompt.
Proof.
  intros Hw Hv. pose proof Hw as (Hl & Hp & Hq).
  destruct prompt as [p|].
  - destruct (wf_valid w p Hw (Hv p eq_refl)) as (pr & qq & Hpr & Hqq).
    rewrite (show_some_spec w p pr qq) by done.
    unfold kept, wf, layout_ok. destruct w; wsimpl.
    rewrite !length_insert, list_fmap_insert.
    rewrite (list_insert_id _ _ (Prompt.question pr))
      by (by rewrite list_lookup_fmap, Hpr).
    repeat split; try done; intros ? [= <-]; by apply Hv.
  - rewrite show_none_spec by done.
    unfold kept, wf, layout_ok. destruct w; wsimpl. done.
Qed.

Lemma enter_saves w q blocking loop old w1 :
  ask_question_enter q blocking w = (Ok (Suspended loop old), w1) ->
  old = _prompt w.
Proof.
  unfold ask_question_enter, new_prompt, EventLoop_new. revert loop old w1.
  mcases; intros; simplify_eq; done.
Qed.

Lemma Keeps_bind {A B} P (m : M A) Q (f : A -> M B) R :
  Keeps P m Q -> (∀ a, Keeps (Q a) (f a) R) -> Keeps P (m ≫= f) R.
Proof.
  intros Hm Hf w Hw HP. destruct (Hm w Hw HP) as [Hk HQ].
  unfold mbind, M_bind. destruct (m w) as [[a|e] w1]; cbn in *.
  - destruct (Hf a w1 (proj1 Hk) (HQ a eq_refl)) as [Hk' HR].
    split; [by eapply kept_trans|done].
  - split; [done|]. by intros ? [=].
Qed.

Lemma Keeps_steady {A} P (m : M A) : Steady m -> Keeps P m (fun _ _ => True).
Proof. intros Hm w Hw _. split; [by apply steady_kept|done]. Qed.

Lemma Keeps_weaken {A} (P P' : World -> Prop) (m : M A) (Q Q' : A -> World -> Prop) :
  Keeps P m Q -> (∀ w, P' w -> P w) -> (∀ a w, Q a w -> Q' a w) ->
  Keeps P' m Q'.
Proof.
  intros Hm HP HQ w Hw HP'. destruct (Hm w Hw (HP w HP')) as [? ?].
  split; [done|]. intros a Ha. apply HQ. auto.
Qed.

Lemma Keeps_get P : Keeps P get (fun a w => a = w).
Proof. intros w Hw _. split; [by apply steady_kept|]. by intros a [= ->]. Qed.

Lemma Keeps_new_prompt k q P :
  Keeps P (new_prompt k q) (fun p w => p < length (prompts w)).
Proof.
  intros w Hw _. unfold new_prompt. mred.
  destruct (questions w !! q) as [qq|] eqn:Hq;
    [|split; [by apply steady_kept|by intros ? [=]]].
  mred. destruct (construct k q qq) as [pr|e] eqn:Hc;
    [|split; [by apply steady_kept|by intros ? [=]]].
  mred. destruct (construct_inv _ _ _ _ Hc) as [line ->].
  destruct Hw as (Hl & Hp & Hqs). unfold kept, wf, layout_ok in *.
  destruct w; cbn in *. rewrite fmap_app, length_app. cbn.
  repeat split; try done; try lia.
  - intros p Hp'. apply Hp in Hp'. lia.
  - apply Forall_app. split; [done|]. constructor; [|done].
    by eapply lookup_lt_Some.
  - intros a [= <-]. lia.
Qed.

Lemma Keeps_show prompt :
  Keeps (fun w => ∀ p, prompt = Some p -> p < length (prompts w))
    (_show_prompt prompt) (fun _ _ => True).
Proof. intros w Hw HP. split; [|done]. by apply show_kept. Qed.

Lemma enter_keeps q blocking P :
  Keeps P (ask_question_enter q blocking) (fun _ _ => True).
Proof.
  unfold ask_question_enter.
  eapply Keeps_bind; [apply Keeps_get|]. intros w0.
  destruct (_shutting_down w0).
  { apply Keeps_steady. steady. }
  destruct (bool_decide (_prompt w0 ≠ None) && negb blocking).
  { apply Keeps_steady. steady; by intros ?. }
  eapply Keeps_bind; [apply Keeps_steady; steady|]. intros qq.
  destruct (classes (Question.mode qq)) as [k|];
    [|apply Keeps_steady; steady].
  eapply Keeps_bind; [apply Keeps_new_prompt|]. intros p. cbn beta.
  eapply Keeps_bind.
  { eapply Keeps_weaken; [apply Keeps_show| |done].
    cbn. by intros w Hp ? [= <-]. }
  intros ?. apply Keeps_steady.
  destruct blocking; unfold EventLoop_new; steady; by intros ?.
Qed.

Lemma resume_keeps q old :
  Keeps (fun w => ∀ p, old = Some p -> p < length (prompts w))
    (ask_question_resume q old) (fun _ _ => True).
Proof.
  unfold ask_question_resume.
  eapply Keeps_bind; [apply Keeps_show|]. intros shown. cbn beta.
  apply Keeps_steady. steady.
Qed.

Section AskLemmas.
Variable exec_ : nat -> World -> World.
Hypothesis exec_kept : ∀ loop w, wf w -> kept w (exec_ loop w).

Lemma ask_question_keeps q blocking P :
  Keeps P (ask_question exec_ q blocking) (fun _ _ => True).
Proof.
  intros w Hw _. split; [|done]. unfold ask_question.
  destruct (enter_keeps q blocking (fun _ => True) w Hw I) as [[Hw1 Hlen1] _].
  pose proof (enter_saves w q blocking) as Hsave.
  unfold mbind at 1, M_bind at 1.
  destruct (ask_question_enter q blocking w) as [[[r|loop old]|e] w1];
    cbn [fst snd] in *; [done|..|done].
  specialize (Hsave loop old w1 eq_refl). subst old.
  unfold mbind, M_bind, modify.
  destruct (exec_kept loop w1 Hw1) as [Hw2 Hlen2].
  destruct (resume_keeps q (_prompt w) (exec_ loop w1) Hw2) as [[Hw3 Hlen3] _].
  { intros p Hp. destruct Hw as (_ & Hv & _). apply Hv in Hp. lia. }
  split; [done|lia].
Qed.

Lemma pop_keeps P : Keeps P (_pop exec_) (fun _ _ => True).
Proof.
  unfold _pop.
  eapply Keeps_bind; [apply Keeps_get|]. intros w0.
  destruct (_queue w0) as [|q rest]; [apply Keeps_steady; steady|].
  eapply Keeps_bind; [apply Keeps_steady; steady|]. intros ?.
  eapply Keeps_bind; [apply Keeps_steady; steady|]. intros qq.
  destruct (Question.deleted qq); [apply Keeps_steady; steady|].
  eapply Keeps_bind; [apply ask_question_keeps|]. intros ?.
  apply Keeps_steady; steady.
Qed.
End AskLemmas.

Lemma idle_kept loop w : wf w -> kept w (idle_loop loop w).
Proof. intros Hw. split; [done|]. unfold idle_loop. lia. Qed.

Lemma events_kept evs :
  Forall (fun ev => Keeps (fun _ => True) (handle ev) (fun _ _ => True)) evs ->
  ∀ w, wf w -> kept w (events evs w).
Proof.
  induction 1 as [|ev evs Hev _ IH]; intros w Hw; cbn [events].
  - split; [done|lia].
  - destruct (Hev w Hw I) as [Hk _].
    eapply kept_trans; [exact Hk|]. apply IH. apply Hk.
Qed.

Lemma handle_keeps ev : Keeps (fun _ => True) (handle ev) (fun _ _ => True).
Proof.
  induction ev as [q|q during IH|v|c|wh|m| |l|q|] using Event_nested_ind;
    cbn [handle].
  - eapply Keeps_bind.
    + apply ask_question_keeps. apply idle_kept.
    + intros ?. apply Keeps_steady; steady.
  - eapply Keeps_bind.
    + apply ask_question_keeps. intros _. by apply (events_kept during).
    + intros ?. apply Keeps_steady; steady.
  - apply Keeps_steady, Steady_prompt_accept.
  - apply Keeps_steady, Steady_prompt_open_download.
  - apply Keeps_steady, Steady_prompt_item_focus.
  - unfold on_mode_left.
    eapply Keeps_bind; [apply Keeps_get|].
    intros w0. destruct (_prompt w0); [|apply Keeps_steady; steady].
    eapply Keeps_bind; [apply Keeps_steady; steady|]. intros pr.
    destruct (decide _); [|apply Keeps_steady; steady].
    eapply Keeps_bind.
    { eapply Keeps_weaken; [apply (Keeps_show None)| |done]. by intros. }
    intros ?. apply Keeps_steady; steady.
  - eapply Keeps_bind; [apply Keeps_get|].
    intros w0. destruct (pending_pops w0); [apply Keeps_steady; steady|].
    eapply Keeps_bind; [apply Keeps_steady; steady|]. intros ?.
    apply pop_keeps. apply idle_kept.
  - apply Keeps_steady, Steady_on_loop_destroyed.
  - apply Keeps_steady. unfold question_deleted. steady.
  - apply Keeps_steady.
    apply Steady_bind; [apply Steady_shutdown|intros; steady].
Qed.

Lemma init_wf qs rows : wf (init qs rows).
Proof. unfold wf, layout_ok. cbn. repeat split; try done. Qed.

Lemma reachable_wf qs rows evs : wf (events evs (init qs rows)).
Proof.
  apply (events_kept evs); [|apply init_wf].
  apply Forall_forall. intros ev _. apply handle_keeps.
Qed.

(** ** Prompt classes: accept *)

(** C7. [YesNoPrompt.accept]: without a value and without a default it
    raises the no-default error; without a value and with a default it
    stores the default as the answer; ["yes"] stores true and ["no"] stores
    false; every other value raises the invalid-value error; and a call
    that does not raise returns true, never false. *)
Theorem YesNoPrompt_accept_spec (w : World) (self : PromptRef)
    (pr : Prompt.t) (qq : Question.t) :
  prompts w !! self = Some pr ->
  questions w !! Prompt.question pr = Some qq ->
  let q := Prompt.question pr in
  (Question.default qq = None ->
     YesNoPrompt_accept self None w = (Raise NoDefaultError, w))
  ∧ (∀ d, Question.default qq = Some d ->
       YesNoPrompt_accept self None w = (Ok true, answered q qq d w))
  ∧ YesNoPrompt_accept self (Some "yes") w
    = (Ok true, answered q qq (VBool true) w)
  ∧ YesNoPrompt_accept self (Some "no") w
    = (Ok true, answered q qq (VBool false) w)
  ∧ (∀ v, v ≠ "yes" -> v ≠ "no" ->
       YesNoPrompt_accept self (Some v) w
       = (Raise (InvalidValueError (yesno_invalid_msg v)), w))
  ∧ (∀ value, fst (YesNoPrompt_accept self value w) ≠ Ok false).
Proof.
  intros Hp Hq q. unfold YesNoPrompt_accept, set_answer, answered, NoDefaultError, InvalidValueError.
  repeat split.
  - intros Hd. mrun. rewrite Hd. by mrun.
  - intros d Hd. mrun. rewrite Hd. by mrun.
  - by mrun.
  - by mrun.
  - intros v H1 H2. mrun. rewrite !String_eqb_false by done. by mrun.
  - intros value. mrun. destruct value as [v|]; mrun.
    + destruct (String.eqb v "yes"); mrun; [done|].
      destruct (String.eqb v "no"); by mrun.
    + destruct (Question.default qq); by mrun.
Qed.

(** C6. [AuthenticationPrompt.accept]: a value without a colon raises the
    invalid-value error; a value with a colon stores, in this one call, the
    pair of the texts on both sides of the split colon and returns true;
    without a value, and with the focus on the user field, the call moves
    the focus to the password field, leaves the question as it is and
    returns false; without a value otherwise it stores the contents of the
    two fields and returns true. *)
Theorem AuthenticationPrompt_accept_spec (w : World) (self : PromptRef)
    (pr : Prompt.t) (qq : Question.t) :
  prompts w !! self = Some pr ->
  questions w !! Prompt.question pr = Some qq ->
  let q := Prompt.question pr in
  (∀ v, contains_char ":" v = false ->
     AuthenticationPrompt_accept self (Some v) w
     = (Raise (InvalidValueError (auth_format_msg v)), w))
  ∧ (∀ v, contains_char ":" v = true ->
       ∃ user password,
         v = user +:+ ":" +:+ password
         ∧ split_maxsplit1 ":" v = [user; password]
         ∧ AuthenticationPrompt_accept self (Some v) w
           = (Ok true, answered q qq (AuthTuple user password) w))
  ∧ (Prompt.focus pr = Focus_user_lineedit ->
       AuthenticationPrompt_accept self None w
       = (Ok false,
          set_prompts (<[self := Prompt.set_focus Focus_password_lineedit pr]>
                         (prompts w)) w))
  ∧ (Prompt.focus pr ≠ Focus_user_lineedit ->
       AuthenticationPrompt_accept self None w
       = (Ok true,
          answered q qq (AuthTuple (Prompt._user_lineedit pr)
                                   (Prompt._password_lineedit pr)) w)).
Proof.
  intros Hp Hq q.
  unfold AuthenticationPrompt_accept, set_answer, answered, InvalidValueError.
  repeat split.
  - intros v Hv. mrun. rewrite Hv. by mrun.
  - intros v Hv. destruct (contains_char_split _ _ Hv) as (u & rest & -> & Hu & Hs).
    exists u, rest. split; [done|]. split; [done|].
    mrun. rewrite Hv, Hs. by mrun.
  - intros Hf. by mrun.
  - intros Hf. by mrun.
Qed.

(** C10. [AuthenticationPrompt.accept] splits at the first colon only: for
    a colon-free [u] and any [rest], the value [u:rest] is accepted with
    the answer [(u, rest)], also when [rest] holds further colons. *)
Theorem AuthenticationPrompt_accept_first_colon (w : World)
    (self : PromptRef) (pr : Prompt.t) (qq : Question.t) (u rest : string) :
  prompts w !! self = Some pr ->
  questions w !! Prompt.question pr = Some qq ->
  contains_char ":" u = false ->
  AuthenticationPrompt_accept self (Some (u +:+ ":" +:+ rest)) w
  = (Ok true, answered (Prompt.question pr) qq (AuthTuple u rest) w).
Proof.
  intros Hp Hq Hu.
  change (":" +:+ rest) with (String ":" rest).
  unfold AuthenticationPrompt_accept, set_answer, answered.
  mrun. rewrite contains_char_app, split_maxsplit1_first by done. by mrun.
Qed.

(** ** The container *)

Section Container.

Variable exec_ : LoopRef -> World -> World.

(** C3. While the container shuts down, [ask_question] aborts the question
    and returns nothing, whatever the blocking flag, the prompt on display,
    the mode of the question and the state of the layout are: the queue,
    the prompt, the layout, the loops and the prompt objects stay as they
    were, so no later step of the method has run. *)
Theorem ask_question_shutting_down (w : World) (question : QuestionRef)
    (qq : Question.t) (blocking : bool) :
  _shutting_down w = true ->
  questions w !! question = Some qq ->
  ∃ w',
    ask_question exec_ question blocking w = (Ok None, w')
    ∧ Question_abort question w = (Ok tt, w')
    ∧ Call_abort question ∈ trace w'
    ∧ (Question.completed qq = false ->
       ∃ qq', questions w' !! question = Some qq'
              ∧ Question.is_aborted qq' = true
              ∧ Question.answer qq' = Question.answer qq)
    ∧ _prompt w' = _prompt w
    ∧ _queue w' = _queue w
    ∧ _layout w' = _layout w
    ∧ _loops w' = _loops w
    ∧ prompts w' = prompts w
    ∧ next_loop w' = next_loop w
    ∧ _shutting_down w' = true.
Proof.
  intros Hs Hq.
  pose proof (Question_abort_spec w question qq Hq) as Ha.
  eexists. split.
  { unfold ask_question, ask_question_enter. mrun. rewrite Hs. mrun.
    rewrite Ha. mrun. reflexivity. }
  split; [exact Ha|].
  destruct (Question.completed qq) eqn:Hc.
  - destruct w; wsimpl. repeat split; try done.
    apply elem_of_app. right. by left. 
  - destruct w; wsimpl. repeat split; try done.
    + rewrite !elem_of_app. left. left. right. by left. 
    + intros _. eexists. split.
      * apply list_lookup_insert_eq. by eapply lookup_lt_Some.
      * done.
Qed.



End Container.


(** C9. When the mode manager reports that the key mode of the prompt on
    display was left, [on_mode_left] shows none, and it cancels the
    question exactly if the question has no answer and is not aborted. *)
Theorem on_mode_left_spec (w : World) (p : PromptRef) (pr : Prompt.t)
    (qq : Question.t) :
  layout_ok w ->
  _prompt w = Some p ->
  prompts w !! p = Some pr ->
  questions w !! Prompt.question pr = Some qq ->
  let q := Prompt.question pr in
  let unanswered :=
    bool_decide (Question.answer qq = None) && negb (Question.is_aborted qq) in
  ∃ w' new,
    on_mode_left (KEY_MODE (Prompt.klass pr)) w = (Ok tt, w')
    ∧ _prompt w' = None
    ∧ _layout w' = []
    ∧ (if unanswered then Question_cancel q (cleared w) = (Ok tt, w')
       else w' = cleared w)
    ∧ trace w' = (trace w ++ [Widget_hide p; Container_hide] ++ new)%list
    ∧ (Call_cancel q ∈ new ↔ unanswered = true).
Proof.
  intros Hl Hc Hp Hq. cbv zeta.
  set (q := Prompt.question pr) in *.
  assert (Hq' : questions (cleared w) !! q = Some qq) by (by destruct w).
  pose proof (Question_cancel_spec _ _ _ Hq') as Hcancel.
  unfold on_mode_left. mrun. rewrite Hc. mrun.
  rewrite show_none_spec by done. mrun. fold q. rewrite ?Hq'. mrun.
  destruct (Question.answer qq) as [v|] eqn:Ha; cbn.
  { exists (cleared w), []. destruct w; wsimpl. subst.
    repeat split; try done. by intros ?%elem_of_nil. }
  destruct (Question.is_aborted qq) eqn:Hab; cbn.
  { exists (cleared w), []. destruct w; wsimpl. subst.
    repeat split; try done. by intros ?%elem_of_nil. }
  rewrite Hcancel.
  destruct (Question.completed qq) eqn:Hcomp.
  - eexists. exists [Call_cancel q]. split; [reflexivity|].
    destruct w; wsimpl. subst. rewrite <- !app_assoc.
    repeat split; try done; intros _; by left.
  - eexists. exists (Call_cancel q :: omap slot_effect (Question.completed_slots qq)).
    split; [reflexivity|].
    destruct w; wsimpl. subst. rewrite <- !app_assoc.
    repeat split; try done; intros _; by left.
Qed.

(** C8. [prompt_accept] turns an [Error] raised by [accept] of the prompt on
    display (an invalid value, a missing default) into a [CommandError]
    with the same message and leaves the container and the question as
    they were; [prompt_open_download] and [prompt_item_focus] swallow the
    [UnsupportedOperationError] of a prompt class without the operation
    and do nothing. *)
Theorem command_entry_errors (w : World) (p : PromptRef) (pr : Prompt.t) :
  _prompt w = Some p ->
  prompts w !! p = Some pr ->
  (∀ value msg w',
     accept p value w = (Raise (InvalidValueError msg), w') ->
     w' = w ∧ prompt_accept value w = (Raise (CommandError msg), w))
  ∧ (∀ value w',
       accept p value w = (Raise NoDefaultError, w') ->
       w' = w
       ∧ prompt_accept value w
         = (Raise (CommandError "No default value was set for this question!"),
            w))
  ∧ (∀ cmdline,
       supports_open_download (Prompt.klass pr) = false ->
       download_open p cmdline w = (Raise UnsupportedOperationError, w)
       ∧ prompt_open_download cmdline w = (Ok tt, w))
  ∧ (∀ which,
       supports_item_navigation (Prompt.klass pr) = false ->
       item_focus p which w = (Raise UnsupportedOperationError, w)
       ∧ prompt_item_focus which w = (Ok tt, w)).
Proof.
  intros Hc Hp.
  assert (Hacc : ∀ value msg w',
     accept p value w = (Raise (Error msg), w') ->
     w' = w ∧ prompt_accept value w = (Raise (CommandError msg), w)).
  { intros value msg w' H.
    pose proof (accept_Error_unchanged _ _ _ _ _ H) as ->.
    split; [done|]. unfold prompt_accept, try_except_Error. mrun.
    rewrite Hc. mrun. rewrite H. by mrun. }
  split; [exact Hacc|]. split; [intros value w'; apply Hacc|].
  split.
  - intros cmdline Hk.
    assert (download_open p cmdline w = (Raise UnsupportedOperationError, w)) as Hd.
    { unfold download_open. mrun. by destruct (Prompt.klass pr). }
    split; [done|]. unfold prompt_open_download, try_except_Unsupported.
    mrun. rewrite Hc. by rewrite Hd.
  - intros which Hk.
    assert (item_focus p which w = (Raise UnsupportedOperationError, w)) as Hd.
    { unfold item_focus. mrun. by destruct (Prompt.klass pr). }
    split; [done|]. unfold prompt_item_focus, try_except_Unsupported.
    mrun. rewrite Hc. by rewrite Hd.
Qed.

(** C5, amended. The [classes] dictionary of [ask_question] has an entry
    exactly for the modes [yesno], [text], [user_pwd], [download] and
    [alert]: for each of these five the lookup yields a class, and there
    is no entry for a Filename mode. *)
Theorem classes_domain (mode : PromptMode.t) :
  (is_Some (classes mode) ↔ mode ≠ PromptMode.filename)
  ∧ (mode ∈ [PromptMode.yesno; PromptMode.text; PromptMode.user_pwd;
             PromptMode.download; PromptMode.alert]
     ↔ is_Some (classes mode)).
Proof.
  rewrite list_elem_of_In. unfold is_Some.
  destruct mode; cbn; repeat split; try done; eauto 10;
    try (by intros [? [=]]); intuition congruence.
Qed.

(** ** Counterexamples to the properties as stated *)

(** C5 as stated fails: the mode [filename] has no class, and an ask of a
    question of that mode raises [KeyError]. *)
Lemma factory_not_total : ¬ factory_total
  ∧ classes PromptMode.filename = None
  ∧ fst (ask_question idle_loop 0 true
           (init [Question.new PromptMode.filename (Some "Save as") (Some (VStr "/tmp/"))] []))
    = Raise KeyError
  ∧ fst (ask_question idle_loop 0 false
           (init [Question.new PromptMode.filename (Some "Save as") (Some (VStr "/tmp/"))] []))
    = Raise KeyError.
Proof.
  split; [|by vm_compute].
  intros H. destruct (H PromptMode.filename) as [k Hk]; [|done].
  unfold PromptMode.all. apply list_elem_of_In. cbn. tauto.
Qed.




(** ** The properties at the example worlds *)

Lemma YesNoPrompt_accept_spec_witness :
  prompts example_yesno !! 0
  = Some (Prompt.mk YesNoPrompt 0 "" "" "" FocusSelf None)
  ∧ Question.answer <$> questions (snd (YesNoPrompt_accept 0 None example_yesno)) !! 0
    = Some (Some (VBool true))
  ∧ YesNoPrompt_accept 0 (Some "maybe") example_yesno
    = (Raise (InvalidValueError "Invalid value maybe - expected yes/no!"),
       example_yesno).
Proof.
  split; [reflexivity|].
  edestruct (YesNoPrompt_accept_spec example_yesno 0) as (_ & Hd & _ & _ & Hi & _);
    [reflexivity|reflexivity|].
  split.
  - rewrite (Hd (VBool true)) by reflexivity. reflexivity.
  - apply (Hi "maybe"); by vm_compute.
Defined.

Lemma AuthenticationPrompt_accept_spec_witness :
  prompts example_auth !! 0
  = Some (Prompt.mk AuthenticationPrompt 1 "" "" "" Focus_user_lineedit None)
  ∧ fst (AuthenticationPrompt_accept 0 (Some "alice:secret") example_auth)
    = Ok true
  ∧ Question.answer <$>
      questions (snd (AuthenticationPrompt_accept 0 (Some "alice:secret")
                        example_auth)) !! 1
    = Some (Some (AuthTuple "alice" "secret"))
  ∧ fst (AuthenticationPrompt_accept 0 None example_auth) = Ok false.
Proof.
  split; [reflexivity|].
  edestruct (AuthenticationPrompt_accept_spec example_auth 0)
    as (_ & Hc & Hf & _); [reflexivity|reflexivity|].
  destruct (Hc "alice:secret" eq_refl) as (u & pw & _ & Hs & Ha).
  vm_compute in Hs. injection Hs as <- <-.
  rewrite Ha, Hf by reflexivity. by vm_compute.
Defined.

Lemma AuthenticationPrompt_accept_first_colon_witness :
  contains_char ":" "a" = false
  ∧ AuthenticationPrompt_accept 0 (Some "a:b:c") example_auth
    = (Ok true,
       answered 1 (Question.connect_completed Slot_pop_later
                     (Question.connect_aborted (Slot_maybe_leave KeyMode.prompt)
                        (Question.new PromptMode.user_pwd (Some "Login") None)))
         (AuthTuple "a" "b:c") example_auth).
Proof.
  split; [reflexivity|].
  exact (AuthenticationPrompt_accept_first_colon example_auth 0
           (Prompt.mk AuthenticationPrompt 1 "" "" "" Focus_user_lineedit None)
           (Question.connect_completed Slot_pop_later
              (Question.connect_aborted (Slot_maybe_leave KeyMode.prompt)
                 (Question.new PromptMode.user_pwd (Some "Login") None)))
           "a" "b:c" eq_refl eq_refl eq_refl).
Defined.

Lemma ask_question_shutting_down_witness :
  _shutting_down example_shut = true
  ∧ ∃ w', ask_question idle_loop 0 true example_shut = (Ok None, w')
          ∧ ask_question idle_loop 0 false example_shut = (Ok None, w')
          ∧ _queue w' = [1].
Proof.
  split; [reflexivity|].
  edestruct (ask_question_shutting_down idle_loop example_shut 0
               (Question.new PromptMode.yesno (Some "Quit?") (Some (VBool true))) true)
    as (w' & Ht & Ha & _ & _ & _ & Hq & _); [reflexivity|reflexivity|].
  edestruct (ask_question_shutting_down idle_loop example_shut 0
               (Question.new PromptMode.yesno (Some "Quit?") (Some (VBool true))) false)
    as (w'' & Hf & Ha' & _); [reflexivity|reflexivity|].
  exists w'. split; [exact Ht|]. split; [|by rewrite Hq].
  rewrite Hf. f_equal. congruence.
Defined.




Lemma on_mode_left_spec_witness :
  layout_ok example_yesno
  ∧ _prompt example_yesno = Some 0
  ∧ ∃ w', on_mode_left KeyMode.yesno example_yesno = (Ok tt, w')
          ∧ _prompt w' = None
          ∧ Call_cancel 0 ∈ trace w'.
Proof.
  split; [reflexivity|]. split; [reflexivity|].
  edestruct (on_mode_left_spec example_yesno 0)
    as (w' & new & H & Hp & _ & _ & Ht & Hc); [reflexivity..|].
  exists w'. split; [exact H|]. split; [exact Hp|].
  rewrite Ht. rewrite !elem_of_app. right. right. apply Hc. reflexivity.
Defined.

Lemma command_entry_errors_witness :
  _prompt example_yesno = Some 0
  ∧ prompt_accept (Some "maybe") example_yesno
    = (Raise (CommandError "Invalid value maybe - expected yes/no!"),
       example_yesno)
  ∧ prompt_open_download None example_yesno = (Ok tt, example_yesno)
  ∧ prompt_item_focus "next" example_yesno = (Ok tt, example_yesno).
Proof.
  split; [reflexivity|].
  edestruct (command_entry_errors example_yesno 0) as (Ha & _ & Hd & Hi);
    [reflexivity|reflexivity|].
  split; [|split].
  - eapply (Ha (Some "maybe") _ example_yesno). reflexivity.
  - apply Hd. reflexivity.
  - apply Hi. reflexivity.
Defined.

Lemma classes_domain_witness :
  is_Some (classes PromptMode.download) ∧ ¬ is_Some (classes PromptMode.filename).
Proof.
  split.
  - destruct (classes_domain PromptMode.download) as [_ [Hd _]].
    apply Hd. repeat constructor.
  - intros H. destruct (classes_domain PromptMode.filename) as [[Hf _] _].
    by apply Hf in H.
Defined.

(** * Further properties of the code *)

(** ** Methods that leave an observation of the world alone *)

Section LeavesLemmas.
Context {X : Type} (obs : World -> X).

Lemma Leaves_bind {A B} (m : M A) (f : A -> M B) :
  Leaves obs m -> (∀ a, Leaves obs (f a)) -> Leaves obs (m ≫= f).
Proof.
  intros Hm Hf w. unfold mbind, M_bind. specialize (Hm w).
  destruct (m w) as [[a|e] w1]; cbn in *; [|done].
  by rewrite Hf.
Qed.

Lemma Leaves_ret {A} (a : A) : Leaves obs (mret a).
Proof. by intros w. Qed.

Lemma Leaves_get : Leaves obs get.
Proof. by intros w. Qed.

Lemma Leaves_raise {A} e : Leaves obs (@raise A e).
Proof. by intros w. Qed.

Lemma Leaves_lift {A} (r : Res A) : Leaves obs (lift r).
Proof. by intros w. Qed.

Lemma Leaves_modify f : (∀ w, obs (f w) = obs w) -> Leaves obs (modify f).
Proof. intros H w. apply H. Qed.

Lemma Leaves_for_each {A} (f : A -> M unit) l :
  (∀ a, Leaves obs (f a)) -> Leaves obs (for_each f l).
Proof.
  intros Hf. induction l; cbn [for_each]; [apply Leaves_ret|].
  apply Leaves_bind; auto.
Qed.

Lemma Leaves_try_except_Error {A} (c : M A) h :
  Leaves obs c -> (∀ msg, Leaves obs (h msg)) ->
  Leaves obs (try_except_Error c h).
Proof.
  intros Hc Hh w. unfold try_except_Error. specialize (Hc w).
  destruct (c w) as [[a|[]] w1]; cbn in *; try done.
  by rewrite Hh.
Qed.

Lemma Leaves_try_except_Unsupported c :
  Leaves obs c -> Leaves obs (try_except_Unsupported c).
Proof.
  intros Hc w. unfold try_except_Unsupported. specialize (Hc w).
  by destruct (c w) as [[a|[]] w1].
Qed.

(** A method that starts by reading the world, and leaves [obs] alone when
    the world it read satisfies [P]. *)
Lemma Leaves_get_bind {A} (P : World -> Prop) (f : World -> M A) w :
  (∀ w0, P w0 -> Leaves obs (f w0)) ->
  P w -> obs (snd ((get ≫= f) w)) = obs w.
Proof. intros H HP. exact (H w HP w). Qed.

End LeavesLemmas.

(** One step of a proof that a method leaves an observation alone; [leaf]
    closes the goals on the primitive changes of the world. *)
Ltac leaves_step leaf :=
  first
    [ apply Leaves_ret | apply Leaves_get | apply Leaves_raise
    | apply Leaves_lift
    | apply Leaves_modify; solve [leaf]
    | apply Leaves_for_each; intros ?
    | apply Leaves_try_except_Error; [|intros ?]
    | apply Leaves_try_except_Unsupported
    | apply Leaves_bind; [|intros ?]
    | match goal with
      | |- Leaves _ (match ?x with _ => _ end) => destruct x
      end
    | progress cbv zeta
    | progress unfold log, _pop_later, get_question, update_question,
        get_prompt, update_prompt, set_answer, emit, run_slot ].

Ltac leaves leaf := repeat leaves_step leaf.

(** The changes that leave alone what is read off the trace and off the
    container's attributes. *)
Ltac trace_leaf :=
  intros []; unfold display_state, abort_state, served, aborted; cbn;
  rewrite ?omap_app; cbn; rewrite ?app_nil_r; reflexivity.

Lemma pop_unfold exec_ w :
  _pop exec_ w
  = match _queue w with
    | [] => (Ok tt, w)
    | q :: rest =>
        (qq ← get_question q;
         if Question.deleted qq then mret tt
         else ask_question exec_ q false;; mret tt) (set_queue rest w)
    end.
Proof.
  unfold _pop. unfold mbind at 1, M_bind at 1, get. by destruct (_queue w).
Qed.

Lemma timer_unfold w :
  handle Ev_timer w
  = match pending_pops w with
    | 0 => (Ok tt, w)
    | S n => _pop idle_loop (set_pending_pops n w)
    end.
Proof.
  cbn [handle]. unfold mbind at 1, M_bind at 1, get.
  by destruct (pending_pops w).
Qed.

(** ** After [shutdown()] *)








(** ** Before [shutdown()] *)

Lemma enter_abort_state q blocking w :
  _shutting_down w = false ->
  abort_state (snd (ask_question_enter q blocking w)) = abort_state w.
Proof.
  unfold ask_question_enter.
  apply (Leaves_get_bind abort_state (fun w => _shutting_down w = false)).
  intros w0 ->. unfold new_prompt, _show_prompt, EventLoop_new.
  leaves trace_leaf.
Qed.

Lemma Leaves_resume_abort_state q old :
  Leaves abort_state (ask_question_resume q old).
Proof. unfold ask_question_resume, _show_prompt. leaves trace_leaf. Qed.

Section AbortState.
Variable exec_ : nat -> World -> World.
Hypothesis exec_abort_state :
  ∀ loop w, _shutting_down w = false ->
    abort_state (exec_ loop w) = abort_state w.

Lemma ask_question_abort_state q blocking w :
  _shutting_down w = false ->
  abort_state (snd (ask_question exec_ q blocking w)) = abort_state w.
Proof.
  intros Hs. pose proof (enter_abort_state q blocking w Hs) as He.
  unfold ask_question. unfold mbind at 1, M_bind at 1.
  destruct (ask_question_enter q blocking w) as [[[r|loop old]|e] w1];
    cbn [snd] in *; try done.
  unfold mbind at 1, M_bind at 1, modify.
  rewrite Leaves_resume_abort_state, exec_abort_state; [done|].
  injection He. congruence.
Qed.

Lemma pop_abort_state w :
  _shutting_down w = false -> abort_state (snd (_pop exec_ w)) = abort_state w.
Proof.
  intros Hs. rewrite pop_unfold.
  destruct (_queue w) as [|q rest]; [done|].
  set (w1 := set_queue rest w).
  assert (abort_state w1 = abort_state w) as <- by (by destruct w).
  assert (Hs1 : _shutting_down w1 = false) by (by destruct w).
  unfold mbind at 1, M_bind at 1.
  assert (Hg : Leaves abort_state (get_question q)) by leaves trace_leaf.
  specialize (Hg w1).
  destruct (get_question q w1) as [[qq|e] w2]; cbn [snd] in *; [|done].
  destruct (Question.deleted qq); [done|].
  rewrite <- Hg. unfold mbind, M_bind.
  assert (Hs2 : _shutting_down w2 = false) by (injection Hg; congruence).
  pose proof (ask_question_abort_state q false w2 Hs2) as Ha.
  by destruct (ask_question exec_ q false w2) as [[a|e] w3].
Qed.
End AbortState.

Lemma events_abort_state evs :
  Forall (fun ev => ∀ w, _shutting_down w = false ->
                      abort_state (snd (handle ev w)) = abort_state w) evs ->
  ∀ w, _shutting_down w = false -> abort_state (events evs w) = abort_state w.
Proof.
  induction 1 as [|ev evs Hev _ IH]; intros w Hs; [done|].
  cbn [events]. specialize (Hev w Hs). rewrite IH, Hev; [done|].
  injection Hev. congruence.
Qed.

Lemma handle_abort_state ev :
  calm ev = true ->
  ∀ w, _shutting_down w = false ->
    abort_state (snd (handle ev w)) = abort_state w.
Proof.
  induction ev as [q|q during IH|v|c|wh|m| |l|q|] using Event_nested_ind;
    intros Hc w Hs.
  - cbn [handle]. unfold mbind, M_bind.
    pose proof (ask_question_abort_state idle_loop (fun _ _ _ => eq_refl)
                  q false w Hs) as H.
    by destruct (ask_question idle_loop q false w) as [[]?].
  - cbn [handle calm] in *.
    assert (Hd : Forall (fun ev => ∀ w, _shutting_down w = false ->
                      abort_state (snd (handle ev w)) = abort_state w) during).
    { rewrite forallb_forall in Hc. rewrite Forall_forall in IH |- *.
      intros ev Hin. apply IH; [done|]. by apply Hc, list_elem_of_In. }
    unfold mbind, M_bind.
    pose proof (ask_question_abort_state (fun _ => events during)
                  (fun _ => events_abort_state during Hd) q true w Hs) as H.
    change (ask_question _ q true w)
      with (ask_question (fun _ => events during) q true w).
    by destruct (ask_question _ q true w) as [[]?].
  - cbn [handle]. clear. revert w.
    unfold prompt_accept, accept, LineEditPrompt_accept,
      DownloadFilenamePrompt_accept, AuthenticationPrompt_accept,
      YesNoPrompt_accept, AlertPrompt_accept, Question_done.
    leaves trace_leaf.
  - cbn [handle]. clear. revert w.
    unfold prompt_open_download, download_open, Question_done.
    leaves trace_leaf.
  - cbn [handle]. clear. revert w.
    unfold prompt_item_focus, item_focus, FilenamePrompt_item_focus,
      AuthenticationPrompt_item_focus, _insert_path.
    leaves trace_leaf.
  - cbn [handle]. clear. revert w.
    unfold on_mode_left, _show_prompt, Question_cancel.
    leaves trace_leaf.
  - rewrite timer_unfold.
    destruct (pending_pops w) as [|n]; [done|].
    rewrite pop_abort_state; [by destruct w| |by destruct w]. done.
  - cbn [handle]. clear. revert w. unfold on_loop_destroyed. leaves trace_leaf.
  - cbn [handle]. clear. revert w. unfold question_deleted. leaves trace_leaf.
  - done.
Qed.

(** X2. The container aborts no question before [shutdown()] is called:
    over every run of events without a call of [shutdown()], nested
    blocking asks included, that starts while the container is not
    shutting down, the flag stays unset and [abort()] is called on no
    question. *)
Theorem no_abort_before_shutdown (evs : list Event) (w : World) :
  forallb calm evs = true ->
  _shutting_down w = false ->
  _shutting_down (events evs w) = false
  ∧ aborted (events evs w) = aborted w.
Proof.
  intros Hc Hs.
  assert (abort_state (events evs w) = abort_state w) as H.
  { apply events_abort_state; [|done]. rewrite forallb_forall in Hc.
    rewrite Forall_forall. intros ev Hin.
    by apply handle_abort_state, Hc, list_elem_of_In. }
  injection H. intros -> ->. done.
Qed.

Lemma no_abort_before_shutdown_witness :
  forallb calm race_events = true
  ∧ aborted (events race_events (init race_questions [])) = [].
Proof.
  split; [reflexivity|].
  apply (no_abort_before_shutdown race_events (init race_questions []));
    reflexivity.
Defined.

(** ** Key hints *)

Lemma contains_char_append c (a b : string) :
  contains_char c (a +:+ b) = contains_char c a || contains_char c b.
Proof.
  induction a as [|x a IH]; [done|].
  rewrite append_cons. cbn -[Ascii.eqb]. by destruct (Ascii.eqb x c).
Qed.

Lemma replace_char_removes old new s :
  contains_char old new = false ->
  contains_char old (replace_char old new s) = false.
Proof.
  intros Hn. induction s as [|a s IH]; [done|].
  cbn -[Ascii.eqb]. destruct (Ascii.eqb a old) eqn:E.
  - by rewrite contains_char_append, Hn, IH.
  - cbn -[Ascii.eqb]. by rewrite E.
Qed.

Lemma replace_char_keeps c old new s :
  contains_char c new = false ->
  contains_char c s = false ->
  contains_char c (replace_char old new s) = false.
Proof.
  intros Hn. induction s as [|a s IH]; [done|].
  cbn -[Ascii.eqb]. destruct (Ascii.eqb a c) eqn:E; [done|]. intros Hs.
  destruct (Ascii.eqb a old).
  - by rewrite contains_char_append, Hn, IH.
  - cbn -[Ascii.eqb]. by rewrite E, IH.
Qed.

Lemma html_escape_clean (s : string) :
  contains_char "<" (html_escape s) = false
  ∧ contains_char ">" (html_escape s) = false
  ∧ contains_char "034" (html_escape s) = false
  ∧ contains_char "'" (html_escape s) = false.
Proof.
  unfold html_escape. repeat split.
  - do 2 (apply replace_char_keeps; [done|]). apply replace_char_keeps; [done|].
    by apply replace_char_removes.
  - do 2 (apply replace_char_keeps; [done|]). by apply replace_char_removes.
  - apply replace_char_keeps; [done|]. by apply replace_char_removes.
  - by apply replace_char_removes.
Qed.

Lemma preferred_binding_cases (bindings : list string) :
  preferred_binding bindings
  = if bool_decide ("<escape>" ∈ bindings) then Some "<escape>"
    else if bool_decide ("<enter>" ∈ bindings) then Some "<enter>"
    else None.
Proof.
  unfold preferred_binding, preferred. cbn.
  by repeat case_bool_decide.
Qed.

Lemma key_labels_cons ab cmd text cmds :
  key_labels ab ((cmd, text) :: cmds)
  = match key_binding (default [] (ab !! cmd)) with
    | Some b => ("<b>" +:+ html_escape b +:+ "</b>", text) :: key_labels ab cmds
    | None => key_labels ab cmds
    end.
Proof.
  unfold key_labels. cbn [omap list_omap].
  by destruct (key_binding _).
Qed.

Lemma key_labels_elem ab cmds key_label text :
  (key_label, text) ∈ key_labels ab cmds ->
  ∃ cmd binding,
    (cmd, text) ∈ cmds
    ∧ binding ∈ default [] (ab !! cmd)
    ∧ key_label = "<b>" +:+ html_escape binding +:+ "</b>".
Proof.
  induction cmds as [|[cmd t] cmds IH]; intros H.
  - by apply elem_of_nil in H.
  - rewrite key_labels_cons in H.
    destruct (key_binding _) as [b|] eqn:E.
    + apply elem_of_cons in H as [[= -> ->]|H].
      * exists cmd, b. split; [by left|]. split; [|done].
        unfold key_binding in E.
        destruct (default [] (ab !! cmd)) as [|f r] eqn:Ed; [done|].
        injection E as <-. rewrite preferred_binding_cases.
        repeat case_bool_decide; cbn; try done. by left.
      * destruct (IH H) as (c & b' & ? & ? & ?). exists c, b'.
        split; [by right|done].
    + destruct (IH H) as (c & b' & ? & ? & ?). exists c, b'.
      split; [by right|done].
Qed.

Lemma key_grid_cells (labels : list (string * string)) :
  length (_key_grid labels) = (2 * length labels)%nat
  ∧ ∀ i c s, (i, c, s) ∈ _key_grid labels ↔
      ∃ key_label text, labels !! i = Some (key_label, text)
        ∧ (c = 0 ∧ s = key_label ∨ c = 1 ∧ s = text).
Proof.
  unfold _key_grid.
  assert (Hgen : ∀ n (l : list (string * string)),
    (length (mjoin (imap (fun i '(k, t) => [(n + i, 0, k); (n + i, 1, t)]) l))
     = (2 * length l)%nat)
    ∧ ∀ i c s,
        (i, c, s) ∈ mjoin (imap (fun i '(k, t) => [(n + i, 0, k); (n + i, 1, t)]) l) ↔
        ∃ k t, (n ≤ i)%nat ∧ l !! (i - n) = Some (k, t)
               ∧ (c = 0 ∧ s = k ∨ c = 1 ∧ s = t)).
  { intros n l. revert n. induction l as [|[k t] l IH]; intros n.
    - split; [done|]. intros i c s. split; [by intros ?%elem_of_nil|].
      by intros (? & ? & ? & ? & ?).
    - rewrite imap_cons.
      match goal with
      | |- context [mjoin (?a :: ?b)] =>
          change (mjoin (a :: b)) with (a ++ mjoin b)
      end.
      rewrite (imap_ext _ (fun i '(k, t) => [(S n + i, 0, k); (S n + i, 1, t)]))
        by (intros ? [] _; cbn; by rewrite Nat.add_succ_r).
      destruct (IH (S n)) as [IHlen IHel]. split.
      + rewrite length_app, IHlen. cbn. lia.
      + intros i c s. rewrite elem_of_app, IHel. rewrite Nat.add_0_r.
        split.
        * intros [H|(k' & t' & Hle & Hl & Hc)].
          -- exists k, t. apply elem_of_cons in H as [[= -> -> ->]|H].
             { rewrite Nat.sub_diag. repeat split; try done. by left. }
             apply elem_of_cons in H as [[= -> -> ->]|H];
               [|by apply elem_of_nil in H].
             rewrite Nat.sub_diag. repeat split; try done. by right.
          -- exists k', t'. split; [lia|]. split; [|done].
             replace (i - n) with (S (i - S n)) by lia. done.
        * intros (k' & t' & Hle & Hl & Hc).
          destruct (decide (i = n)) as [->|Hne].
          -- rewrite Nat.sub_diag in Hl. injection Hl as <- <-. left.
             destruct Hc as [[-> ->]|[-> ->]]; [by left|right; by left].
          -- right. exists k', t'. split; [lia|]. split; [|done].
             replace (i - n) with (S (i - S n)) in Hl by lia. done. }
  destruct (Hgen 0 labels) as [Hlen Hel]. split; [exact Hlen|].
  intros i c s. rewrite Hel. rewrite Nat.sub_0_r.
  split; intros (k & t & H); exists k, t; [tauto|]. split; [lia|done].
Qed.

(** X3. The key shown for a command in the key hints: a command without
    a binding gets none; otherwise the key is one of the command's
    bindings, namely [<escape>] if that is bound, else [<enter>] if that is
    bound, else the first binding. *)
Theorem key_binding_spec (bindings : list string) :
  (key_binding bindings = None ↔ bindings = [])
  ∧ (∀ b, key_binding bindings = Some b ->
       b ∈ bindings
       ∧ ("<escape>" ∈ bindings -> b = "<escape>")
       ∧ ("<escape>" ∉ bindings -> "<enter>" ∈ bindings -> b = "<enter>")
       ∧ ("<escape>" ∉ bindings -> "<enter>" ∉ bindings ->
          head bindings = Some b)).
Proof.
  unfold key_binding. rewrite preferred_binding_cases.
  destruct bindings as [|first rest]; [by split|].
  split; [by split|]. intros b [= <-].
  repeat case_bool_decide; cbn; repeat split; try done.
  all: try (by left).
Qed.

(** X4. The key hints list the commands that have a binding, in the order
    of [_allowed_commands], and leave out the others; every hint shows a
    binding of its command; and the grid gets one row per hint, numbered
    from 0 without gaps, with the key in column 0 and the text in
    column 1. *)
Theorem key_labels_spec (all_bindings : gmap string (list string))
    (cmds : list (string * string)) :
  let labels := key_labels all_bindings cmds in
  labels.*2 = (filter (bound all_bindings) cmds).*2
  ∧ (length labels ≤ length cmds)%nat
  ∧ (∀ key_label text, (key_label, text) ∈ labels ->
       ∃ cmd binding,
         (cmd, text) ∈ cmds
         ∧ binding ∈ default [] (all_bindings !! cmd)
         ∧ key_label = "<b>" +:+ html_escape binding +:+ "</b>")
  ∧ length (_key_grid labels) = (2 * length labels)%nat
  ∧ (∀ i c s, (i, c, s) ∈ _key_grid labels ↔
       ∃ key_label text, labels !! i = Some (key_label, text)
         ∧ (c = 0 ∧ s = key_label ∨ c = 1 ∧ s = text)).
Proof.
  cbv zeta. split; [|split; [|split]].
  - induction cmds as [|[cmd text] cmds IH]; [done|].
    rewrite key_labels_cons, filter_cons.
    destruct (decide (bound all_bindings (cmd, text))) as [Hb|Hb];
      unfold bound in Hb; cbn [fst] in Hb;
      destruct (default [] (all_bindings !! cmd)) as [|b bs]; try done.
    + cbn. by rewrite IH.
    + by destruct Hb.
  - induction cmds as [|[cmd text] cmds IH]; [done|].
    rewrite key_labels_cons. destruct (key_binding _); cbn; lia.
  - intros key_label text. apply key_labels_elem.
  - apply key_grid_cells.
Qed.

(** X5. The key of a hint is escaped: between the bold tags the label
    holds no angle bracket and no quote, whatever the key configuration
    binds. *)
Theorem key_label_markup (all_bindings : gmap string (list string))
    (cmds : list (string * string)) (key_label text : string) :
  (key_label, text) ∈ key_labels all_bindings cmds ->
  ∃ e, key_label = "<b>" +:+ e +:+ "</b>"
       ∧ contains_char "<" e = false
       ∧ contains_char ">" e = false
       ∧ contains_char "034" e = false
       ∧ contains_char "'" e = false.
Proof.
  intros (cmd & binding & _ & _ & ->)%key_labels_elem.
  exists (html_escape binding). split; [done|]. apply html_escape_clean.
Qed.

Lemma key_label_markup_witness :
  ∃ e, "<b>&lt;a&amp;b&gt;</b>" = "<b>" +:+ e +:+ "</b>"
       ∧ contains_char "<" e = false
       ∧ contains_char ">" e = false
       ∧ contains_char "034" e = false
       ∧ contains_char "'" e = false.
Proof.
  apply (key_label_markup {[ "prompt-accept" := ["<a&b>"] ]}
           [("prompt-accept", "Accept"); ("leave-mode", "Abort")]
           "<b>&lt;a&amp;b&gt;</b>" "Accept").
  vm_compute. by left.
Defined.

(** ** The root of the file view *)

Lemma endswith_contains c s :
  endswith_char c s = true -> contains_char c s = true.
Proof.
  induction s as [|a s IH]; [done|].
  cbn -[Ascii.eqb]. destruct s as [|b s].
  - intros ->. done.
  - intros H. rewrite IH by done. by destruct (Ascii.eqb a c).
Qed.

Lemma basename_endswith p : endswith_char "/" p = true -> basename p = "".
Proof.
  induction p as [|a p IH]; [done|].
  cbn -[Ascii.eqb contains_char]. destruct p as [|b p].
  - intros ->. done.
  - intros H. rewrite (endswith_contains _ _ H). by apply IH.
Qed.

(** X6. [_set_fileview_root] changes the root of the file view only for a
    path that ends in a slash and is not the root directory: then the root
    becomes that path, trailing slash included, if it is a directory; the
    second test of the method looks at the base name of a path that ends in
    a slash, which is the empty string; and in every other case the root
    stays.  Calling the method again with the same path changes nothing
    more. *)
Theorem set_fileview_root_spec (isdir : string -> bool) (path : string)
    (root : option string) :
  let root' := _set_fileview_root isdir path root in
  root'
  = (if endswith_char "/" path && negb (String.eqb path "/")
     then if isdir path then Some path
          else if isdir "" then Some ""
          else root
     else root)
  ∧ _set_fileview_root isdir path root' = root'.
Proof.
  cbv zeta.
  assert (H : ∀ r, _set_fileview_root isdir path r
    = if endswith_char "/" path && negb (String.eqb path "/")
      then if isdir path then Some path
           else if isdir "" then Some ""
           else r
      else r).
  { intros r. unfold _set_fileview_root.
    destruct (endswith_char "/" path) eqn:E; cbn; [|done].
    destruct (String.eqb path "/"); cbn; [done|].
    rewrite (basename_endswith _ E).
    by destruct (isdir path), (isdir ""). }
  split; [apply H|]. rewrite !H.
  by destruct (endswith_char "/" path && negb (String.eqb path "/")),
       (isdir path), (isdir "").
Qed.
